(** * Thumbnail editor: edit history, chat transcript and pending context

    A shallow embedding of the state kept by the [App] component and
    of its event handlers.  React state is a record; every handler is a
    function on that record.  The two asynchronous handlers are cut at their [await]
    points: the part before the [await] runs when the event is handled
    and leaves a suspended task behind, the part after it runs when the
    environment settles the awaited promise.  A suspended task keeps the
    values its closure captured, which are the values of the render in
    which the handler was created. *)

From Stdlib Require Import String Ascii ZArith NArith List Bool Lia.
From Stdlib Require Import DecimalString DecimalZ.
Import ListNotations.
Local Open Scope Z_scope.

(** ** JavaScript strings and arrays *)

(** A string is its sequence of UTF-16 code units. *)
Definition jsstring := list N.

Definition str (s : string) : jsstring :=
  map N_of_ascii (list_ascii_of_string s).

Fixpoint jsstring_eqb (s t : jsstring) : bool :=
  match s, t with
  | [], [] => true
  | c :: s', d :: t' => N.eqb c d && jsstring_eqb s' t'
  | _, _ => false
  end.

(** ECMAScript WhiteSpace and LineTerminator code points: what
    [String.prototype.trim] strips. *)
Definition isWhiteSpace (c : N) : bool :=
  ((9 <=? c) && (c <=? 13) || (c =? 32) || (c =? 160) || (c =? 5760)
   || (8192 <=? c) && (c <=? 8202) || (c =? 8232) || (c =? 8233)
   || (c =? 8239) || (c =? 8287) || (c =? 12288) || (c =? 65279))%N.

Fixpoint trimStart (s : jsstring) : jsstring :=
  match s with
  | c :: r => if isWhiteSpace c then trimStart r else s
  | [] => []
  end.

Definition trimEnd (s : jsstring) : jsstring := rev (trimStart (rev s)).

Definition trim (s : jsstring) : jsstring := trimEnd (trimStart s).

(** Truthiness of a string: the empty string is the only falsy one. *)
Definition truthy (s : jsstring) : bool :=
  match s with [] => false | _ :: _ => true end.

Fixpoint startsWith (s p : jsstring) : bool :=
  match p with
  | [] => true
  | c :: p' =>
      match s with
      | d :: s' => N.eqb c d && startsWith s' p'
      | [] => false
      end
  end.

(** [s.split(sep)] for a one-character separator. *)
Fixpoint split (sep : N) (s : jsstring) : list jsstring :=
  match s with
  | [] => [[]]
  | c :: r =>
      if N.eqb c sep then [] :: split sep r
      else match split sep r with
           | h :: t => (c :: h) :: t
           | [] => [[c]]
           end
  end.

(** [a[i]] for a number [i]: [undefined] outside [0 .. length-1]. *)
Definition index {A : Type} (a : list A) (i : Z) : option A :=
  if i <? 0 then None else nth_error a (Z.to_nat i).

(** [a.slice(0, e)]: a negative [e] counts from the end, and the bound
    is clamped to the array. *)
Definition slice0 {A : Type} (a : list A) (e : Z) : list A :=
  let len := Z.of_nat (length a) in
  let final := if e <? 0 then Z.max (len + e) 0 else Z.min e len in
  firstn (Z.to_nat final) a.

(** The decimal text of an integer, as a template literal prints it. *)
Definition decimal (n : Z) : jsstring :=
  str (NilZero.string_of_int (Z.to_int n)).

(** ** Data model *)

Module ImageState.
Record t := mk { imageUrl : jsstring; mimeType : jsstring }.
End ImageState.

Inductive MessageType := user | bot.

Module ChatMessage.
Record t := mk {
  id : jsstring;
  type : MessageType;
  prompt : option jsstring;
  imageUrl : option jsstring;
  mimeType : option jsstring;
  contextImageUrl : option jsstring
}.
End ChatMessage.

Module File.
Record t := mk { name : jsstring; type : jsstring }.
End File.

Module ContextImage.
Record t := mk { file : File.t; url : jsstring; mimeType : jsstring }.
End ContextImage.

(** The seven [useState] cells of [App]. *)
Record AppState := mkApp {
  chatHistory : list ChatMessage.t;
  historyStack : list ImageState.t;
  historyIndex : Z;
  contextImage : option ContextImage.t;
  prompt : jsstring;
  isLoading : bool;
  error : option jsstring
}.

Definition initialState : AppState :=
  mkApp [] [] (-1) None [] false None.

Definition setChatHistory (v : list ChatMessage.t) (a : AppState) :=
  mkApp v (historyStack a) (historyIndex a) (contextImage a) (prompt a)
        (isLoading a) (error a).
Definition setHistoryStack (v : list ImageState.t) (a : AppState) :=
  mkApp (chatHistory a) v (historyIndex a) (contextImage a) (prompt a)
        (isLoading a) (error a).
Definition setHistoryIndex (v : Z) (a : AppState) :=
  mkApp (chatHistory a) (historyStack a) v (contextImage a) (prompt a)
        (isLoading a) (error a).
Definition setContextImage (v : option ContextImage.t) (a : AppState) :=
  mkApp (chatHistory a) (historyStack a) (historyIndex a) v (prompt a)
        (isLoading a) (error a).
Definition setPrompt (v : jsstring) (a : AppState) :=
  mkApp (chatHistory a) (historyStack a) (historyIndex a) (contextImage a) v
        (isLoading a) (error a).
Definition setIsLoading (v : bool) (a : AppState) :=
  mkApp (chatHistory a) (historyStack a) (historyIndex a) (contextImage a)
        (prompt a) v (error a).
Definition setError (v : option jsstring) (a : AppState) :=
  mkApp (chatHistory a) (historyStack a) (historyIndex a) (contextImage a)
        (prompt a) (isLoading a) v.

(** ** Edit history: the cells [historyStack] and [historyIndex] *)

Definition current (a : AppState) : option ImageState.t :=
  index (historyStack a) (historyIndex a).

Definition canUndo (a : AppState) : bool := 0 <? historyIndex a.

Definition canRedo (a : AppState) : bool :=
  historyIndex a <? Z.of_nat (length (historyStack a)) - 1.

Definition handleUndo (a : AppState) : AppState :=
  if 0 <? historyIndex a then setHistoryIndex (historyIndex a - 1) a else a.

Definition handleRedo (a : AppState) : AppState :=
  if historyIndex a <? Z.of_nat (length (historyStack a)) - 1
  then setHistoryIndex (historyIndex a + 1) a else a.

(** Lines 130-133 of [handleEdit]: the stack and index the handler
    captured decide the new stack; both cells are overwritten. *)
Definition commitEdit (stack : list ImageState.t) (idx : Z)
    (newImageState : ImageState.t) (a : AppState) : AppState :=
  let newHistoryStack := slice0 stack (idx + 1) in
  setHistoryIndex (Z.of_nat (length newHistoryStack))
    (setHistoryStack (newHistoryStack ++ [newImageState]) a).

(** Lines 52-53 of [handleInitialImageUpload]. *)
Definition reset (newImageState : ImageState.t) (a : AppState) : AppState :=
  setHistoryIndex 0 (setHistoryStack [newImageState] a).

(** ** The world around the component *)

Definition dataUrlToBase64 (dataUrl : jsstring) : option jsstring :=
  nth_error (split 44%N dataUrl) 1.

(** What a running [handleEdit] holds on to across its [await]s: the
    render it was created in, and the two locals it built before
    suspending. *)
Record EditFrame := mkFrame {
  rendered : AppState;
  currentImage : ImageState.t;
  userMessage : ChatMessage.t
}.

Inductive Task :=
| AwaitUploadRead (file : File.t)
| AwaitContextRead (fr : EditFrame)
| AwaitEditImage (fr : EditFrame).

(** The arguments of one [editImage] call. *)
Record EditRequest := mkRequest {
  baseImage : option jsstring * jsstring;
  requestPrompt : jsstring;
  contextImg : option (option jsstring * jsstring)
}.

Record World := mkWorld {
  app : AppState;
  pending : list Task;
  objectURLs : list jsstring;
  revoked : list jsstring;
  calls : list EditRequest
}.

Definition initialWorld : World := mkWorld initialState [] [] [] [].

Definition withApp (f : AppState -> AppState) (w : World) : World :=
  mkWorld (f (app w)) (pending w) (objectURLs w) (revoked w) (calls w).
Definition suspend (t : Task) (w : World) : World :=
  mkWorld (app w) (pending w ++ [t]) (objectURLs w) (revoked w) (calls w).
Definition createObjectURL (u : jsstring) (w : World) : World :=
  mkWorld (app w) (pending w) (objectURLs w ++ [u]) (revoked w) (calls w).
Definition revokeObjectURL (u : jsstring) (w : World) : World :=
  mkWorld (app w) (pending w) (objectURLs w) (revoked w ++ [u]) (calls w).
Definition editImage (r : EditRequest) (w : World) : World :=
  mkWorld (app w) (pending w) (objectURLs w) (revoked w) (calls w ++ [r]).
Definition dropTask (i : nat) (w : World) : World :=
  mkWorld (app w) (firstn i (pending w) ++ skipn (S i) (pending w))
          (objectURLs w) (revoked w) (calls w).

(** ** Handlers *)

(** What the environment hands back when an awaited promise settles. *)
Inductive Settled :=
| FileLoaded (dataUrl : jsstring)
| FileFailed
| EditResolved (newBase64 newMimeType : jsstring)
| EditRejected (message : jsstring).

Definition botMessage (now : Z) (imageUrl mimeType : jsstring) :=
  ChatMessage.mk (str "bot-" ++ decimal now) bot None
                 (Some imageUrl) (Some mimeType) None.

(** [handleInitialImageUpload] up to its [await]. *)
Definition handleInitialImageUpload (file : option File.t) (w : World) : World :=
  match file with
  | None => w
  | Some f =>
      if negb (startsWith (File.type f) (str "image/")) then
        withApp (setError (Some (str "Please upload a valid image file."))) w
      else
        suspend (AwaitUploadRead f)
          (withApp (fun a => setError None (setIsLoading true a)) w)
  end.

(** [handleInitialImageUpload] from its [await] on: the [try] body, or
    the [catch], and then the [finally]. *)
Definition initialImageUploadResumed (f : File.t) (r : option jsstring)
    (now : Z) (w : World) : World :=
  let w1 :=
    match r with
    | Some dataUrl =>
        let newImageState := ImageState.mk dataUrl (File.type f) in
        withApp (fun a =>
          setContextImage None
            (setPrompt []
              (setChatHistory [botMessage now dataUrl (File.type f)]
                (reset newImageState a)))) w
    | None =>
        withApp (setError (Some (str "Failed to read the uploaded file."))) w
    end in
  withApp (setIsLoading false) w1.

(** [handleContextImageSelect]; [objectURL] is what
    [URL.createObjectURL] returns should the handler call it. *)
Definition handleContextImageSelect (file : option File.t)
    (objectURL : jsstring) (w : World) : World :=
  match file with
  | None => w
  | Some f =>
      if negb (startsWith (File.type f) (str "image/")) then
        withApp (setError
          (Some (str "Please upload a valid image file for context."))) w
      else
        withApp (setContextImage
                   (Some (ContextImage.mk f objectURL (File.type f))))
                (createObjectURL objectURL w)
  end.

(** The [onClick] of the button that removes the context image. *)
Definition discardContextImage (w : World) : World :=
  let w1 :=
    match contextImage (app w) with
    | Some ci => revokeObjectURL (ContextImage.url ci) w
    | None => w
    end in
  withApp (setContextImage None) w1.

(** The call [editImage(baseImage, prompt, contextImg)] of line 120,
    after which the handler is suspended on its result. *)
Definition callEditImage (fr : EditFrame)
    (ctx : option (option jsstring * jsstring)) (w : World) : World :=
  let baseImage :=
    (dataUrlToBase64 (ImageState.imageUrl (currentImage fr)),
     ImageState.mimeType (currentImage fr)) in
  suspend (AwaitEditImage fr)
    (editImage (mkRequest baseImage (prompt (rendered fr)) ctx) w).

(** [handleEdit] up to its first [await]. *)
Definition handleEdit (now : Z) (w : World) : World :=
  let a := app w in
  match index (historyStack a) (historyIndex a) with
  | None =>
      withApp (setError
        (Some (str "Cannot edit without a base image and a prompt."))) w
  | Some currentImage =>
      if negb (truthy (trim (prompt a))) then
        withApp (setError
          (Some (str "Cannot edit without a base image and a prompt."))) w
      else if isLoading a then w
      else
        let userMessage :=
          ChatMessage.mk (str "user-" ++ decimal now) user (Some (prompt a))
            None None (option_map ContextImage.url (contextImage a)) in
        let fr := mkFrame a currentImage userMessage in
        let w1 :=
          withApp (fun s =>
            setChatHistory (chatHistory s ++ [userMessage])
              (setError None (setIsLoading true s))) w in
        match contextImage a with
        | Some _ => suspend (AwaitContextRead fr) w1
        | None => callEditImage fr None w1
        end
  end.

(** The [catch] block of [handleEdit]. *)
Definition editCatch (fr : EditFrame) (message : jsstring) (w : World) : World :=
  withApp (fun s =>
    setChatHistory
      (filter (fun msg => negb (jsstring_eqb (ChatMessage.id msg)
                                             (ChatMessage.id (userMessage fr))))
              (chatHistory s))
      (setError (Some message) s)) w.

(** The [finally] block of [handleEdit]; [contextImage] is the one of
    the render the handler was created in. *)
Definition editFinally (fr : EditFrame) (w : World) : World :=
  let w1 := withApp (fun s => setPrompt [] (setIsLoading false s)) w in
  let w2 :=
    match contextImage (rendered fr) with
    | Some ci => revokeObjectURL (ContextImage.url ci) w1
    | None => w1
    end in
  withApp (setContextImage None) w2.

(** [handleEdit] resumed after [fileToDataUrl(contextImage.file)]; a
    rejection of that promise is not an [Error] instance.  The handler
    awaits here only inside [if (contextImage)], so its closure has a
    context image; the case without one is there to keep the function
    total. *)
Definition contextReadResumed (fr : EditFrame) (r : option jsstring)
    (w : World) : World :=
  match r, contextImage (rendered fr) with
  | Some contextDataUrl, Some ci =>
      callEditImage fr
        (Some (dataUrlToBase64 contextDataUrl, ContextImage.mimeType ci)) w
  | Some _, None => callEditImage fr None w
  | None, _ => editFinally fr (editCatch fr (str "An unknown error occurred.") w)
  end.

(** [handleEdit] resumed after [editImage]; every rejection of
    [editImage] is an [Error] carrying a message. *)
Definition editImageResumed (fr : EditFrame)
    (r : jsstring * jsstring + jsstring) (now : Z) (w : World) : World :=
  let w1 :=
    match r with
    | inl (newBase64, newMimeType) =>
        let newImageUrl :=
          str "data:" ++ newMimeType ++ str ";base64," ++ newBase64 in
        let newBotMessage := botMessage now newImageUrl newMimeType in
        let newImageState := ImageState.mk newImageUrl newMimeType in
        withApp (fun s =>
          setChatHistory (chatHistory s ++ [newBotMessage])
            (commitEdit (historyStack (rendered fr)) (historyIndex (rendered fr))
                        newImageState s)) w
    | inr message => editCatch fr message w
    end in
  editFinally fr w1.

(** ** Events *)

Inductive Event :=
| InitialImageUpload (file : option File.t)
| ContextImageSelect (file : option File.t) (objectURL : jsstring)
| PromptChange (value : jsstring)
| Edit (now : Z)
| Undo
| Redo
| DiscardContext
| Settle (i : nat) (r : Settled) (now : Z).

(** Resuming the [i]-th suspended handler with what its promise
    settled to.  A task that is not there, or a result of the wrong
    kind for it, changes nothing. *)
Definition settle (i : nat) (r : Settled) (now : Z) (w : World) : World :=
  match nth_error (pending w) i, r with
  | Some (AwaitUploadRead f), FileLoaded d =>
      initialImageUploadResumed f (Some d) now (dropTask i w)
  | Some (AwaitUploadRead f), FileFailed =>
      initialImageUploadResumed f None now (dropTask i w)
  | Some (AwaitContextRead fr), FileLoaded d =>
      contextReadResumed fr (Some d) (dropTask i w)
  | Some (AwaitContextRead fr), FileFailed =>
      contextReadResumed fr None (dropTask i w)
  | Some (AwaitEditImage fr), EditResolved b m =>
      editImageResumed fr (inl (b, m)) now (dropTask i w)
  | Some (AwaitEditImage fr), EditRejected msg =>
      editImageResumed fr (inr msg) now (dropTask i w)
  | _, _ => w
  end.

Definition step (w : World) (e : Event) : World :=
  match e with
  | InitialImageUpload file => handleInitialImageUpload file w
  | ContextImageSelect file u => handleContextImageSelect file u w
  | PromptChange v => withApp (setPrompt v) w
  | Edit now => handleEdit now w
  | Undo => withApp handleUndo w
  | Redo => withApp handleRedo w
  | DiscardContext => discardContextImage w
  | Settle i r now => settle i r now w
  end.

Definition run (w : World) (es : list Event) : World := fold_left step es w.

(** ** What the rendered page lets through *)

Definition controlsDisabled (a : AppState) : bool :=
  (length (historyStack a) =? 0)%nat || isLoading a.

(** The image pane with its buttons is rendered when [currentImageUrl]
    is truthy. *)
Definition imagePaneShown (a : AppState) : bool :=
  match current a with
  | Some img => truthy (ImageState.imageUrl img)
  | None => false
  end.

Definition settles (t : Task) (r : Settled) : bool :=
  match t, r with
  | AwaitUploadRead _, (FileLoaded _ | FileFailed) => true
  | AwaitContextRead _, (FileLoaded _ | FileFailed) => true
  | AwaitEditImage _, (EditResolved _ _ | EditRejected _) => true
  | _, _ => false
  end.

(** An event the page can deliver in world [w]: its control is
    rendered and not disabled, a settled promise belongs to a suspended
    handler, and a new object URL is one not handed out before. *)
Definition enabled (w : World) (e : Event) : bool :=
  let a := app w in
  match e with
  | InitialImageUpload _ => true
  | ContextImageSelect _ u =>
      negb (controlsDisabled a)
      && negb (existsb (jsstring_eqb u) (objectURLs w))
  | PromptChange _ => negb (controlsDisabled a)
  | Edit _ => negb (controlsDisabled a)
  | Undo => imagePaneShown a && canUndo a
  | Redo => imagePaneShown a && canRedo a
  | DiscardContext =>
      match contextImage a with Some _ => true | None => false end
  | Settle i r _ =>
      match nth_error (pending w) i with
      | Some t => settles t r
      | None => false
      end
  end.

Fixpoint deliver (w : World) (es : list Event) : option World :=
  match es with
  | [] => Some w
  | e :: es' => if enabled w e then deliver (step w e) es' else None
  end.

(** ** Predicates used in the statements *)

(** A prompt is blank when it has nothing but white space. *)
Definition blank (s : jsstring) : bool := forallb isWhiteSpace s.

(** The cursor points into the stack. *)
Definition cursorInRange (stack : list ImageState.t) (idx : Z) : Prop :=
  0 <= idx < Z.of_nat (length stack).

(** The edit history is either untouched ([[]] with cursor [-1], as
    [useState] initialises it) or has its cursor in range. *)
Definition historyOk (a : AppState) : Prop :=
  (historyStack a = [] /\ historyIndex a = -1)
  \/ cursorInRange (historyStack a) (historyIndex a).

Definition frameOk (fr : EditFrame) : Prop :=
  cursorInRange (historyStack (rendered fr)) (historyIndex (rendered fr)).

(** A suspended [handleEdit] was created in a render with a current
    image; while the stack is empty only uploads can be suspended. *)
Definition taskOk (a : AppState) (t : Task) : Prop :=
  match t with
  | AwaitUploadRead _ => True
  | AwaitContextRead fr | AwaitEditImage fr =>
      frameOk fr /\ historyStack a <> []
  end.

Definition worldOk (w : World) : Prop :=
  historyOk (app w) /\ Forall (taskOk (app w)) (pending w).

(** Whether event [e], handled in world [w], completes the upload of a
    base image. *)
Definition completesUpload (w : World) (e : Event) : bool :=
  match e with
  | Settle i (FileLoaded _) _ =>
      match nth_error (pending w) i with
      | Some (AwaitUploadRead _) => true
      | _ => false
      end
  | _ => false
  end.

Fixpoint uploadsCompleted (w : World) (es : list Event) : nat :=
  match es with
  | [] => 0
  | e :: es' =>
      ((if completesUpload w e then 1 else 0) + uploadsCompleted (step w e) es')%nat
  end.

(** The [editImage] calls that have been issued and not yet settled. *)
Definition outstandingCalls (w : World) : nat :=
  length (filter (fun t => match t with AwaitEditImage _ => true | _ => false end)
                 (pending w)).

(** How often [URL.revokeObjectURL] has been called on [u]. *)
Definition releases (u : jsstring) (w : World) : nat :=
  length (filter (jsstring_eqb u) (revoked w)).

(** Whether the component still holds [u]: as the pending context
    image, or in the closure of a suspended [handleEdit]. *)
Definition held (u : jsstring) (w : World) : bool :=
  match contextImage (app w) with
  | Some ci => jsstring_eqb u (ContextImage.url ci)
  | None => false
  end
  || existsb (fun t =>
       match t with
       | AwaitUploadRead _ => false
       | AwaitContextRead fr | AwaitEditImage fr =>
           match contextImage (rendered fr) with
           | Some ci => jsstring_eqb u (ContextImage.url ci)
           | None => false
           end
       end) (pending w).

(** One submission with nothing else happening meanwhile: the handler
    runs to its first [await]; when a context image is attached its
    file is read; then [editImage] settles to [outcome]. *)
Definition submission (w : World) (now : Z) (contextDataUrl : jsstring)
    (outcome : Settled) (now' : Z) : list Event :=
  let n := length (pending w) in
  Edit now
  :: match contextImage (app w) with
     | Some _ => [Settle n (FileLoaded contextDataUrl) now]
     | None => []
     end
  ++ [Settle n outcome now'].

(** The render in which [handleEdit] goes ahead: a current image, a
    prompt that is not blank, nothing loading. *)
Definition canSubmit (a : AppState) : Prop :=
  cursorInRange (historyStack a) (historyIndex a)
  /\ blank (prompt a) = false
  /\ isLoading a = false.

(** The transcript entry [handleEdit] builds at time [now]. *)
Definition userEntry (now : Z) (a : AppState) : ChatMessage.t :=
  ChatMessage.mk (str "user-" ++ decimal now) user (Some (prompt a))
    None None (option_map ContextImage.url (contextImage a)).

(** The image [handleEdit] builds from what [editImage] resolved to. *)
Definition editedImage (newBase64 newMimeType : jsstring) : ImageState.t :=
  ImageState.mk (str "data:" ++ newMimeType ++ str ";base64," ++ newBase64)
                newMimeType.

(** What [editImage] settles to, as an event payload. *)
Definition editOutcome (r : jsstring * jsstring + jsstring) : Settled :=
  match r with
  | inl (b, m) => EditResolved b m
  | inr msg => EditRejected msg
  end.

(** ** Ids and the clock *)

(** The [Date.now()] reading an event brings with it. *)
Definition stampOf (e : Event) : option Z :=
  match e with
  | Edit now | Settle _ _ now => Some now
  | _ => None
  end.

(** The readings along [es] increase strictly, none being below [c]. *)
Fixpoint clockAdvances (c : Z) (es : list Event) : Prop :=
  match es with
  | [] => True
  | e :: es' =>
      match stampOf e with
      | Some now => c <= now /\ clockAdvances (now + 1) es'
      | None => clockAdvances c es'
      end
  end.

(** The first reading the clock can give after [es]. *)
Fixpoint clockAfter (c : Z) (es : list Event) : Z :=
  match es with
  | [] => c
  | e :: es' =>
      match stampOf e with
      | Some now => clockAfter (now + 1) es'
      | None => clockAfter c es'
      end
  end.

(** The id of [msg] was built from a clock reading below [c]. *)
Definition stampedBelow (c : Z) (msg : ChatMessage.t) : Prop :=
  exists t, t < c
    /\ (ChatMessage.id msg = str "user-" ++ decimal t
        \/ ChatMessage.id msg = str "bot-" ++ decimal t).

(** ** A sample session *)

Definition thumbPng : File.t := File.mk (str "thumb.png") (str "image/png").
Definition logoJpg : File.t := File.mk (str "logo.jpg") (str "image/jpeg").
Definition notesTxt : File.t := File.mk (str "notes.txt") (str "text/plain").

Definition thumbDataUrl : jsstring := str "data:image/png;base64,QUJD".
Definition logoDataUrl : jsstring := str "data:image/jpeg;base64,REVG".

(** A base image has been uploaded at time 1000. *)
Definition uploaded : World :=
  run initialWorld
    [InitialImageUpload (Some thumbPng); Settle 0 (FileLoaded thumbDataUrl) 1000].

(** ... and a prompt typed. *)
Definition prompted : World := step uploaded (PromptChange (str "make it blue")).

(** A second context image is attached over the first, then removed. *)
Definition attachTwice : list Event :=
  [InitialImageUpload (Some thumbPng); Settle 0 (FileLoaded thumbDataUrl) 1000;
   ContextImageSelect (Some logoJpg) (str "blob:1");
   ContextImageSelect (Some logoJpg) (str "blob:2");
   DiscardContext].

(** A new base image is uploaded while a context image is attached. *)
Definition attachThenUpload : list Event :=
  [InitialImageUpload (Some thumbPng); Settle 0 (FileLoaded thumbDataUrl) 1000;
   ContextImageSelect (Some logoJpg) (str "blob:1");
   InitialImageUpload (Some thumbPng); Settle 0 (FileLoaded thumbDataUrl) 2000].

(** The context image is removed by hand while the submission that
    carries it is under way. *)
Definition discardWhileSubmitting : list Event :=
  [InitialImageUpload (Some thumbPng); Settle 0 (FileLoaded thumbDataUrl) 1000;
   ContextImageSelect (Some logoJpg) (str "blob:1");
   PromptChange (str "make it blue");
   Edit 2000;
   DiscardContext;
   Settle 0 (FileLoaded logoDataUrl) 2500;
   Settle 0 (EditResolved (str "WFla") (str "image/png")) 3000].

(** A new base image is uploaded while an edit is under way. *)
Definition uploadWhileSubmitting : list Event :=
  [InitialImageUpload (Some thumbPng); Settle 0 (FileLoaded thumbDataUrl) 1000;
   PromptChange (str "make it blue");
   Edit 2000;
   InitialImageUpload (Some logoJpg); Settle 1 (FileLoaded logoDataUrl) 3000;
   PromptChange (str "add a title")].

(** A file that is not an image is offered as context after one edit. *)
Definition errorShown : list Event :=
  [InitialImageUpload (Some thumbPng); Settle 0 (FileLoaded thumbDataUrl) 1000;
   PromptChange (str "make it blue");
   Edit 2000;
   Settle 0 (EditResolved (str "WFla") (str "image/png")) 3000;
   ContextImageSelect (Some notesTxt) (str "blob:1")].

(** Events that have nothing to do with the error text. *)
Definition navigation (e : Event) : bool :=
  match e with
  | Undo | Redo | DiscardContext | PromptChange _ => true
  | _ => false
  end.

(** ** The image service *)

(** One element of the [parts] array [editImage] sends: inline image
    data, or the prompt text. *)
Inductive RequestPart :=
| InlineDataPart (data : option jsstring) (mimeType : jsstring)
| TextPart (text : jsstring).

(** One element of the [parts] array of a response: [inlineData] and
    [text] are both optional. *)
Record ResponsePart := mkPart {
  inlineData : option (jsstring * jsstring);
  text : option jsstring
}.

(** How [ai.models.generateContent] ends: with a response, whose
    [candidates?.[0]?.content?.parts] is an array or [undefined], or by
    throwing an [Error], or by throwing something else. *)
Inductive Generated :=
| Responded (parts : option (list ResponsePart))
| ThrewError (message : jsstring)
| ThrewOther.

Module GeminiService.

(** The [parts] array built before the call. *)
Definition parts (baseImage : option jsstring * jsstring) (prompt : jsstring)
    (contextImage : option (option jsstring * jsstring)) : list RequestPart :=
  [InlineDataPart (fst baseImage) (snd baseImage)]
  ++ match contextImage with
     | Some c => [InlineDataPart (fst c) (snd c)]
     | None => []
     end
  ++ [TextPart prompt].

(** [editImage], with the remote call as a parameter.  The result is
    the resolved pair [(newBase64, newMimeType)], or the message of the
    [Error] the promise is rejected with. *)
Definition editImage (generateContent : list RequestPart -> Generated)
    (baseImage : option jsstring * jsstring) (prompt : jsstring)
    (contextImage : option (option jsstring * jsstring))
    : jsstring * jsstring + jsstring :=
  match generateContent (parts baseImage prompt contextImage) with
  | Responded ps =>
      let imagePart :=
        match ps with
        | Some l =>
            find (fun part =>
                    match inlineData part with Some _ => true | None => false end) l
        | None => None
        end in
      match imagePart with
      | Some (mkPart (Some (data, mimeType)) _) => inl (data, mimeType)
      | _ =>
          inr (str "Failed to edit image: "
               ++ str "API response did not contain an image.")
      end
  | ThrewError message => inr (str "Failed to edit image: " ++ message)
  | ThrewOther => inr (str "An unknown error occurred while editing the image.")
  end.

End GeminiService.

(** ** Download, and what is rendered *)

(** [downloadImage]: nothing without a current image; otherwise the
    [href] and [download] attributes of the link that is clicked. *)
Definition downloadImage (now : Z) (a : AppState) : option (jsstring * jsstring) :=
  match index (historyStack a) (historyIndex a) with
  | Some currentImage =>
      let extension :=
        match nth_error (split 47%N (ImageState.mimeType currentImage)) 1 with
        | Some e => if truthy e then e else str "png"
        | None => str "png"
        end in
      Some (ImageState.imageUrl currentImage,
            str "thumbnail-" ++ decimal now ++ str "." ++ extension)
  | None => None
  end.

(** The [disabled] attribute of the submit button. *)
Definition submitDisabled (a : AppState) : bool :=
  (length (historyStack a) =? 0)%nat || isLoading a
  || negb (truthy (trim (prompt a))).

(** The error banner is rendered under [{error && ...}]. *)
Definition errorBannerShown (a : AppState) : bool :=
  match error a with
  | Some message => truthy message
  | None => false
  end.

(** ** Further predicates *)

(** Entries as the handlers build them: a user entry has a prompt and
    an id made from ["user-"], a bot entry an image with its mime type
    and an id made from ["bot-"]. *)
Definition entryOk (msg : ChatMessage.t) : Prop :=
  match ChatMessage.type msg with
  | user =>
      (exists t, ChatMessage.id msg = str "user-" ++ decimal t)
      /\ ChatMessage.prompt msg <> None
      /\ ChatMessage.imageUrl msg = None
      /\ ChatMessage.mimeType msg = None
  | bot =>
      (exists t, ChatMessage.id msg = str "bot-" ++ decimal t)
      /\ ChatMessage.imageUrl msg <> None
      /\ ChatMessage.mimeType msg <> None
      /\ ChatMessage.prompt msg = None
      /\ ChatMessage.contextImageUrl msg = None
  end.

Definition isBot (msg : ChatMessage.t) : bool :=
  match ChatMessage.type msg with bot => true | user => false end.

(** The frame of a suspended [handleEdit], if the task has one. *)
Definition frameOf (t : Task) : option EditFrame :=
  match t with
  | AwaitUploadRead _ => None
  | AwaitContextRead fr | AwaitEditImage fr => Some fr
  end.

(** Every suspended [handleEdit] holds a user entry. *)
Definition framesHoldUserEntries (w : World) : Prop :=
  forall t fr, In t (pending w) -> frameOf t = Some fr ->
    entryOk (userMessage fr) /\ ChatMessage.type (userMessage fr) = user.

(** The URL of a context image, when there is one. *)
Definition contextUrl (a : AppState) : option jsstring :=
  option_map ContextImage.url (contextImage a).

(** Every object URL the component knows of, and every one it has
    revoked, is one [URL.createObjectURL] returned. *)
Definition urlsKnown (w : World) : Prop :=
  (forall u, contextUrl (app w) = Some u -> In u (objectURLs w))
  /\ (forall t fr u, In t (pending w) -> frameOf t = Some fr ->
        contextUrl (rendered fr) = Some u -> In u (objectURLs w))
  /\ (forall u, In u (revoked w) -> In u (objectURLs w)).

Definition undoOrRedo (e : Event) : bool :=
  match e with Undo | Redo => true | _ => false end.

(** A submission as in [submission], with undo and redo clicks while
    the handler is suspended: [mid1] after the handler's first part,
    [mid2] after the context file has been read. *)
Definition submissionAmid (w : World) (now : Z) (mid1 : list Event)
    (contextDataUrl : jsstring) (mid2 : list Event) (outcome : Settled)
    (now' : Z) : list Event :=
  let n := length (pending w) in
  Edit now :: mid1
  ++ match contextImage (app w) with
     | Some _ => Settle n (FileLoaded contextDataUrl) now :: mid2
     | None => []
     end
  ++ [Settle n outcome now'].


(** ** Sessions with something happening while a call is out *)



(** One edit gives two versions, and a second prompt is typed. *)
Definition twoVersionsPrompted : list Event :=
  [InitialImageUpload (Some thumbPng); Settle 0 (FileLoaded thumbDataUrl) 1000;
   PromptChange (str "make it blue"); Edit 2000;
   Settle 0 (EditResolved (str "Qg==") (str "image/png")) 3000;
   PromptChange (str "add a title")].

(** The second submission reads the clock value the first one read. *)
Definition repeatedReading : list Event := twoVersionsPrompted ++ [Edit 2000].

(** Undo is clicked while the call of the second submission is out. *)
Definition undoThenReject : list Event :=
  twoVersionsPrompted ++ [Edit 4000; Undo].


(** ** Proof steps used more than once *)

(** Closes a goal saying that the error text was overwritten, or kept. *)
Ltac kept_or_overwritten :=
  first [left; reflexivity | right; split; reflexivity].

(** Reduces the cells of a world whose error text alone was replaced. *)
Ltac same_cells :=
  cbn [app withApp setError historyStack historyIndex prompt isLoading
       contextImage chatHistory pending].

(** ** Facts about the string and array primitives *)

Example trim_sample :
  trim ([9]%N ++ str "  make it blue  ") = str "make it blue".
Proof. reflexivity. Qed.

Example trim_blank_sample : trim [32; 160; 8232; 10; 65279]%N = [].
Proof. reflexivity. Qed.

Example startsWith_sample :
  startsWith (str "image/png") (str "image/") = true
  /\ startsWith (str "text/plain") (str "image/") = false
  /\ startsWith (str "imag") (str "image/") = false.
Proof. repeat split; reflexivity. Qed.

Example split_sample :
  split 44%N (str "a,b,,c") = [str "a"; str "b"; []; str "c"]
  /\ split 44%N [] = [[]].
Proof. split; reflexivity. Qed.

Example dataUrlToBase64_sample :
  dataUrlToBase64 (str "data:image/png;base64,QUJD") = Some (str "QUJD")
  /\ dataUrlToBase64 (str "no comma") = None.
Proof. split; reflexivity. Qed.

Example index_sample :
  index [10; 20; 30] 1 = Some 20
  /\ index [10; 20; 30] (-1) = None
  /\ index [10; 20; 30] 3 = None.
Proof. repeat split; reflexivity. Qed.

Example slice0_sample :
  slice0 [10; 20; 30] 2 = [10; 20]
  /\ slice0 [10; 20; 30] 0 = []
  /\ slice0 [10; 20; 30] 7 = [10; 20; 30]
  /\ slice0 [10; 20; 30] (-1) = [10; 20].
Proof. repeat split; reflexivity. Qed.

Example decimal_sample :
  decimal 1730000000000 = str "1730000000000"
  /\ decimal 0 = str "0"
  /\ decimal (-5) = str "-5".
Proof. repeat split; reflexivity. Qed.

Lemma jsstring_eqb_eq (s t : jsstring) : jsstring_eqb s t = true <-> s = t.
Proof.
  revert t; induction s as [|c s IH]; intros [|d t]; simpl;
    try (split; [discriminate | congruence]); try tauto.
  rewrite andb_true_iff, N.eqb_eq, IH. split.
  - intros [-> ->]; reflexivity.
  - intros H; inversion H; auto.
Qed.

Lemma jsstring_eqb_refl (s : jsstring) : jsstring_eqb s s = true.
Proof. apply jsstring_eqb_eq; reflexivity. Qed.

Lemma trimStart_blank (s : jsstring) : trimStart s = [] <-> blank s = true.
Proof.
  induction s as [|c s IH]; simpl.
  - tauto.
  - destruct (isWhiteSpace c); simpl; [exact IH | split; discriminate].
Qed.

Lemma trimStart_head (s : jsstring) (c : N) (r : jsstring) :
  trimStart s = c :: r -> isWhiteSpace c = false.
Proof.
  induction s as [|d s IH]; simpl; [discriminate|].
  destruct (isWhiteSpace d) eqn:E; [exact IH|].
  intros H; inversion H; subst; exact E.
Qed.

Lemma blank_app (s t : jsstring) : blank (s ++ t) = blank s && blank t.
Proof. apply forallb_app. Qed.

Lemma blank_rev (s : jsstring) : blank (rev s) = blank s.
Proof.
  induction s as [|c s IH]; simpl; [reflexivity|].
  rewrite blank_app, IH; simpl. rewrite andb_true_r, andb_comm; reflexivity.
Qed.

(** [!prompt.trim()] holds exactly for blank prompts. *)
Lemma trim_falsy_iff_blank (s : jsstring) :
  truthy (trim s) = false <-> blank s = true.
Proof.
  unfold trim, trimEnd.
  assert (T : forall x : jsstring, truthy x = false <-> x = []).
  { intros [|? ?]; simpl; split; congruence. }
  rewrite T. split.
  - intros H.
    assert (H' : trimStart (rev (trimStart s)) = []).
    { rewrite <- (rev_involutive (trimStart _)), H; reflexivity. }
    apply trimStart_blank in H'. rewrite blank_rev in H'.
    destruct (trimStart s) as [|c r] eqn:E.
    + apply trimStart_blank; exact E.
    + apply trimStart_head in E. simpl in H'. rewrite E in H'. discriminate.
  - intros H. apply trimStart_blank in H. rewrite H; reflexivity.
Qed.

Lemma index_Some {A : Type} (a : list A) (i : Z) (x : A) :
  index a i = Some x -> 0 <= i < Z.of_nat (length a).
Proof.
  unfold index. destruct (i <? 0) eqn:E; [discriminate|].
  apply Z.ltb_ge in E. intros H.
  assert (Hn : nth_error a (Z.to_nat i) <> None) by congruence.
  apply nth_error_Some in Hn. lia.
Qed.

Lemma index_in_range {A : Type} (a : list A) (i : Z) :
  0 <= i < Z.of_nat (length a) -> exists x, index a i = Some x.
Proof.
  intros H. unfold index.
  destruct (i <? 0) eqn:E; [apply Z.ltb_lt in E; lia|].
  destruct (nth_error a (Z.to_nat i)) eqn:N; [eauto|].
  apply nth_error_None in N. lia.
Qed.

Lemma index_nil {A : Type} (i : Z) : index (@nil A) i = None.
Proof. unfold index. destruct (i <? 0); [|destruct (Z.to_nat i)]; reflexivity. Qed.

Lemma slice0_in_range {A : Type} (a : list A) (i : Z) :
  0 <= i < Z.of_nat (length a) ->
  slice0 a (i + 1) = firstn (S (Z.to_nat i)) a
  /\ Z.of_nat (length (slice0 a (i + 1))) = i + 1.
Proof.
  intros H. unfold slice0.
  destruct (i + 1 <? 0) eqn:E; [apply Z.ltb_lt in E; lia|].
  replace (Z.to_nat (Z.min (i + 1) (Z.of_nat (length a))))
    with (S (Z.to_nat i)) by lia.
  split; [reflexivity|]. rewrite length_firstn. lia.
Qed.

Lemma index_last {A : Type} (l : list A) (x : A) :
  index (l ++ [x]) (Z.of_nat (length l)) = Some x.
Proof.
  unfold index. destruct (Z.of_nat (length l) <? 0) eqn:E.
  - apply Z.ltb_lt in E; lia.
  - rewrite Nat2Z.id, nth_error_app2, Nat.sub_diag by lia. reflexivity.
Qed.

(** ** The edit history on its own *)

Lemma commitEdit_history (stack : list ImageState.t) (idx : Z)
    (v : ImageState.t) (a : AppState) :
  cursorInRange stack idx ->
  historyStack (commitEdit stack idx v a) = firstn (S (Z.to_nat idx)) stack ++ [v]
  /\ historyIndex (commitEdit stack idx v a) = idx + 1.
Proof.
  intros H. destruct (slice0_in_range stack idx H) as [E L].
  unfold commitEdit; simpl. rewrite L, E. auto.
Qed.

Lemma commitEdit_current (stack : list ImageState.t) (idx : Z)
    (v : ImageState.t) (a : AppState) :
  current (commitEdit stack idx v a) = Some v.
Proof. unfold current, commitEdit; simpl. apply index_last. Qed.

Lemma commitEdit_cursor_last (stack : list ImageState.t) (idx : Z)
    (v : ImageState.t) (a : AppState) :
  historyIndex (commitEdit stack idx v a)
  = Z.of_nat (length (historyStack (commitEdit stack idx v a))) - 1.
Proof. unfold commitEdit; simpl. rewrite length_app; simpl. lia. Qed.

Lemma cursor_last_no_redo (a : AppState) :
  historyIndex a = Z.of_nat (length (historyStack a)) - 1 ->
  canRedo a = false /\ handleRedo a = a.
Proof.
  intros H. unfold canRedo, handleRedo.
  rewrite (proj2 (Z.ltb_ge _ _)) by lia. auto.
Qed.

(** The history cells after a resumed [handleEdit] whose [editImage]
    call resolved are those [commitEdit] computes from the frame. *)
Lemma editImageResumed_commits (fr : EditFrame) (b m : jsstring) (now : Z)
    (w : World) :
  let v := ImageState.mk (str "data:" ++ m ++ str ";base64," ++ b) m in
  let a' := commitEdit (historyStack (rendered fr)) (historyIndex (rendered fr))
                       v (app w) in
  historyStack (app (editImageResumed fr (inl (b, m)) now w)) = historyStack a'
  /\ historyIndex (app (editImageResumed fr (inl (b, m)) now w)) = historyIndex a'.
Proof.
  unfold editImageResumed, editFinally.
  destruct (contextImage (rendered fr)); simpl; auto.
Qed.

(** The helper on its own.
    With the cursor anywhere inside a non-empty stack, committing
    an edit keeps the versions up to and including the cursor, appends
    the new version and leaves the cursor on it, the last index; no redo
    is possible afterwards.  From [A;B;C] with cursor 2, an undo followed
    by committing [v] gives [A;B;v] with cursor 2, and redo then changes
    nothing. *)
Theorem commitEdit_overwrites_redo_branch (a : AppState) (v : ImageState.t) :
  cursorInRange (historyStack a) (historyIndex a) ->
  let a' := commitEdit (historyStack a) (historyIndex a) v a in
  historyStack a'
    = firstn (S (Z.to_nat (historyIndex a))) (historyStack a) ++ [v]
  /\ historyIndex a' = Z.of_nat (length (historyStack a')) - 1
  /\ current a' = Some v
  /\ canRedo a' = false
  /\ handleRedo a' = a'
  /\ forall A B C : ImageState.t,
       historyStack a = [A; B; C] -> historyIndex a = 2 ->
       let b := handleUndo a in
       let b' := commitEdit (historyStack b) (historyIndex b) v b in
       historyIndex b = 1
       /\ historyStack b' = [A; B; v] /\ historyIndex b' = 2
       /\ canRedo b' = false /\ handleRedo b' = b'.
Proof.
  intros H a'.
  pose proof (commitEdit_history _ _ v a H) as [Hs _].
  pose proof (commitEdit_cursor_last (historyStack a) (historyIndex a) v a) as Hl.
  pose proof (cursor_last_no_redo _ Hl) as [Hc Hr].
  split; [exact Hs|]. split; [exact Hl|].
  split; [apply commitEdit_current|]. split; [exact Hc|]. split; [exact Hr|].
  intros A B C Es Ei b b'.
  assert (Eb : b = setHistoryIndex 1 a).
  { unfold b, handleUndo. rewrite Ei. reflexivity. }
  assert (Eb' : historyStack b' = [A; B; v] /\ historyIndex b' = 2).
  { unfold b'. rewrite Eb. simpl. rewrite Es. split; reflexivity. }
  destruct Eb' as [E1 E2].
  assert (Hl' : historyIndex b' = Z.of_nat (length (historyStack b')) - 1).
  { rewrite E1, E2. reflexivity. }
  pose proof (cursor_last_no_redo _ Hl') as [Hc' Hr'].
  rewrite Eb at 1; simpl. auto.
Qed.

Lemma commitEdit_overwrites_redo_branch_witness :
  let A := ImageState.mk (str "data:image/png;base64,QQ==") (str "image/png") in
  let B := ImageState.mk (str "data:image/png;base64,Qg==") (str "image/png") in
  let C := ImageState.mk (str "data:image/png;base64,Qw==") (str "image/png") in
  let D := ImageState.mk (str "data:image/png;base64,RA==") (str "image/png") in
  let a := mkApp [] [A; B; C] 2 None [] false None in
  let b := handleUndo a in
  let b' := commitEdit (historyStack b) (historyIndex b) D b in
  cursorInRange (historyStack a) (historyIndex a)
  /\ historyStack (commitEdit (historyStack a) (historyIndex a) D a) = [A; B; C; D]
  /\ historyStack b' = [A; B; D] /\ historyIndex b' = 2
  /\ canRedo b' = false /\ handleRedo b' = b'.
Proof.
  intros A B C D a b b'.
  assert (H : cursorInRange (historyStack a) (historyIndex a)).
  { unfold cursorInRange; simpl; lia. }
  destruct (commitEdit_overwrites_redo_branch a D H)
    as (Hs & _ & _ & _ & _ & Hex).
  destruct (Hex A B C eq_refl eq_refl) as (_ & H1 & H2 & H3 & H4).
  exact (conj H (conj Hs (conj H1 (conj H2 (conj H3 H4))))).
Defined.

(** ** The cursor invariant along every run *)

Lemma run_cons (w : World) (e : Event) (es : list Event) :
  run w (e :: es) = run (step w e) es.
Proof. reflexivity. Qed.

Lemma taskOk_mono (a a' : AppState) (l : list Task) :
  (historyStack a <> [] -> historyStack a' <> []) ->
  Forall (taskOk a) l -> Forall (taskOk a') l.
Proof.
  intros Hne H. induction H as [|t l Ht _ IH]; constructor; auto.
  destruct t; simpl in *; tauto.
Qed.

Lemma Forall_dropped {A : Type} (P : A -> Prop) (i : nat) (l : list A) :
  Forall P l -> Forall P (firstn i l ++ skipn (S i) l).
Proof.
  intros H. revert i. induction H as [|x l Hx Hl IH]; intros i.
  - destruct i; constructor.
  - destruct i as [|i]; simpl; [exact Hl|].
    constructor; [exact Hx|apply IH].
Qed.

Lemma Forall_nth_error {A : Type} (P : A -> Prop) (l : list A) (i : nat) (x : A) :
  Forall P l -> nth_error l i = Some x -> P x.
Proof.
  intros H E. apply nth_error_In in E. revert x E. apply Forall_forall. exact H.
Qed.

Lemma historyOk_same (a a' : AppState) :
  historyStack a' = historyStack a -> historyIndex a' = historyIndex a ->
  historyOk a -> historyOk a'.
Proof. unfold historyOk. intros -> ->. tauto. Qed.

(** A world whose history cells are those of [w] and whose suspended
    tasks are those of [w], possibly with one more that is itself fine. *)
Lemma worldOk_same_history (w w' : World) :
  historyStack (app w') = historyStack (app w) ->
  historyIndex (app w') = historyIndex (app w) ->
  Forall (taskOk (app w)) (pending w') ->
  worldOk w -> worldOk w'.
Proof.
  intros Es Ei Hp [Hh _]. split.
  - eapply historyOk_same; eauto.
  - eapply taskOk_mono; [|exact Hp]. rewrite Es. auto.
Qed.

Lemma handleUndo_ok (a : AppState) : historyOk a -> historyOk (handleUndo a).
Proof.
  unfold historyOk, cursorInRange, handleUndo.
  destruct (0 <? historyIndex a) eqn:E; [|tauto].
  apply Z.ltb_lt in E. simpl. intros [[_ H]|H]; [lia|right; lia].
Qed.

Lemma handleRedo_ok (a : AppState) : historyOk a -> historyOk (handleRedo a).
Proof.
  unfold historyOk, cursorInRange, handleRedo.
  destruct (historyIndex a <? Z.of_nat (length (historyStack a)) - 1) eqn:E;
    [|tauto].
  apply Z.ltb_lt in E. simpl. intros [[H1 H2]|H]; [|right; lia].
  rewrite H1 in E; simpl in E. lia.
Qed.

Lemma commitEdit_ok (stack : list ImageState.t) (idx : Z) (v : ImageState.t)
    (a : AppState) :
  cursorInRange stack idx -> historyOk (commitEdit stack idx v a).
Proof.
  intros H. right. destruct (commitEdit_history stack idx v a H) as [Es Ei].
  unfold cursorInRange in *. rewrite Es, Ei, length_app, length_firstn.
  change (length [v]) with 1%nat. lia.
Qed.

Lemma commitEdit_nonempty (stack : list ImageState.t) (idx : Z)
    (v : ImageState.t) (a : AppState) :
  historyStack (commitEdit stack idx v a) <> [].
Proof. unfold commitEdit; simpl. destruct (slice0 stack (idx + 1)); discriminate. Qed.

Lemma handleEdit_ok (now : Z) (w : World) : worldOk w -> worldOk (handleEdit now w).
Proof.
  intros Hw. unfold handleEdit.
  destruct (index (historyStack (app w)) (historyIndex (app w))) as [cur|] eqn:E.
  2:{ apply (worldOk_same_history w); auto; apply Hw. }
  destruct (negb (truthy (trim (prompt (app w))))).
  { apply (worldOk_same_history w); auto; apply Hw. }
  destruct (isLoading (app w)); [exact Hw|].
  apply index_Some in E.
  assert (Hne : historyStack (app w) <> []).
  { intros C. rewrite C in E. simpl in E. lia. }
  destruct (contextImage (app w)) eqn:Ec;
    (apply (worldOk_same_history w); [reflexivity|reflexivity| |exact Hw]);
    simpl; apply Forall_app; (split; [apply Hw|]);
    constructor; [|constructor| |constructor]; simpl; unfold frameOk; simpl;
    auto.
Qed.

Lemma settle_ok (i : nat) (r : Settled) (now : Z) (w : World) :
  worldOk w -> worldOk (settle i r now w).
Proof.
  intros Hw. unfold settle.
  destruct (nth_error (pending w) i) as [t|] eqn:E; [|destruct r; exact Hw].
  pose proof (Forall_nth_error _ _ _ _ (proj2 Hw) E) as Ht.
  pose proof (Forall_dropped _ i _ (proj2 Hw)) as Hd.
  destruct t as [f|fr|fr]; destruct r as [d| |b m|msg]; try exact Hw.
  - (* upload read *)
    split; [right; unfold cursorInRange; simpl; lia|].
    simpl. eapply taskOk_mono; [|exact Hd]. simpl. discriminate.
  - apply (worldOk_same_history w); [reflexivity|reflexivity|exact Hd|exact Hw].
  - (* context image read *)
    unfold contextReadResumed.
    destruct (contextImage (rendered fr));
      (apply (worldOk_same_history w); [reflexivity|reflexivity| |exact Hw]);
      simpl; apply Forall_app; (split; [exact Hd|]); repeat constructor;
      apply Ht.
  - unfold contextReadResumed, editFinally.
    destruct (contextImage (rendered fr));
      (apply (worldOk_same_history w); [reflexivity|reflexivity|exact Hd|exact Hw]).
  - (* the edit came back *)
    destruct Ht as [Hfr _].
    destruct (editImageResumed_commits fr b m now (dropTask i w)) as [Es Ei].
    cbv zeta in Es, Ei. split.
    + eapply historyOk_same; [exact Es|exact Ei|].
      apply commitEdit_ok. exact Hfr.
    + replace (pending (editImageResumed fr (inl (b, m)) now (dropTask i w)))
        with (pending (dropTask i w))
        by (unfold editImageResumed, editFinally;
            destruct (contextImage (rendered fr)); reflexivity).
      eapply taskOk_mono; [|exact Hd]. intros _. rewrite Es.
      apply commitEdit_nonempty.
  - unfold editImageResumed, editFinally.
    destruct (contextImage (rendered fr));
      (apply (worldOk_same_history w); [reflexivity|reflexivity|exact Hd|exact Hw]).
Qed.

Lemma step_ok (w : World) (e : Event) : worldOk w -> worldOk (step w e).
Proof.
  intros Hw. destruct e as [file|file u|v|now| | | |i r now]; simpl.
  - unfold handleInitialImageUpload. destruct file as [f|]; [|exact Hw].
    destruct (negb (startsWith (File.type f) (str "image/")));
      (apply (worldOk_same_history w); [reflexivity|reflexivity| |exact Hw]);
      simpl; [apply Hw|]. apply Forall_app. split; [apply Hw|].
    repeat constructor.
  - unfold handleContextImageSelect. destruct file as [f|]; [|exact Hw].
    destruct (negb (startsWith (File.type f) (str "image/")));
      (apply (worldOk_same_history w); [reflexivity|reflexivity| |exact Hw]);
      apply Hw.
  - apply (worldOk_same_history w); [reflexivity|reflexivity| |exact Hw]. apply Hw.
  - apply handleEdit_ok; exact Hw.
  - split; [apply handleUndo_ok; apply Hw|].
    eapply taskOk_mono; [|apply Hw]. simpl. unfold handleUndo.
    destruct (0 <? historyIndex (app w)); auto.
  - split; [apply handleRedo_ok; apply Hw|].
    eapply taskOk_mono; [|apply Hw]. simpl. unfold handleRedo.
    destruct (historyIndex (app w) <? _); auto.
  - unfold discardContextImage.
    destruct (contextImage (app w));
      (apply (worldOk_same_history w); [reflexivity|reflexivity| |exact Hw]);
      apply Hw.
  - apply settle_ok; exact Hw.
Qed.

Lemma initialWorld_ok : worldOk initialWorld.
Proof. split; [left; split; reflexivity|constructor]. Qed.

Lemma run_ok (es : list Event) (w : World) : worldOk w -> worldOk (run w es).
Proof.
  revert w. induction es as [|e es IH]; intros w Hw; [exact Hw|].
  rewrite run_cons. apply IH, step_ok, Hw.
Qed.

(** An event leaves the stack alone, or completes an upload, or resumes
    a suspended edit; in the last two cases the new stack is not empty. *)
Lemma step_stack_cases (w : World) (e : Event) :
  historyStack (app (step w e)) = historyStack (app w)
  \/ (completesUpload w e = true /\ historyStack (app (step w e)) <> [])
  \/ ((exists i fr, nth_error (pending w) i = Some (AwaitEditImage fr))
      /\ historyStack (app (step w e)) <> []).
Proof.
  destruct e as [file|file u|v|now| | | |i r now]; simpl.
  - left. unfold handleInitialImageUpload. destruct file as [f|]; [|reflexivity].
    destruct (negb _); reflexivity.
  - left. unfold handleContextImageSelect. destruct file as [f|]; [|reflexivity].
    destruct (negb _); reflexivity.
  - left; reflexivity.
  - left. unfold handleEdit.
    destruct (index _ _); [|reflexivity].
    destruct (negb _); [reflexivity|].
    destruct (isLoading _); [reflexivity|].
    destruct (contextImage _); reflexivity.
  - left. unfold handleUndo. destruct (0 <? _); reflexivity.
  - left. unfold handleRedo. destruct (_ <? _); reflexivity.
  - left. unfold discardContextImage. destruct (contextImage _); reflexivity.
  - unfold settle.
    destruct (nth_error (pending w) i) as [t|] eqn:E; [|left; destruct r; reflexivity].
    destruct t as [f|fr|fr]; destruct r as [d| |b m|msg]; auto.
    + right; left. simpl. split; [reflexivity|]. discriminate.
    + left. unfold contextReadResumed.
      destruct (contextImage (rendered fr)); reflexivity.
    + left. unfold contextReadResumed, editFinally.
      destruct (contextImage (rendered fr)); reflexivity.
    + right; right. split; [eauto|].
      destruct (editImageResumed_commits fr b m now (dropTask i w)) as [Es _].
      cbv zeta in Es. rewrite Es. apply commitEdit_nonempty.
    + left. unfold editImageResumed, editFinally.
      destruct (contextImage (rendered fr)); reflexivity.
Qed.

Lemma step_nonempty (w : World) (e : Event) :
  historyStack (app w) <> [] -> historyStack (app (step w e)) <> [].
Proof.
  intros H. destruct (step_stack_cases w e) as [E|[[_ N]|[_ N]]];
    [rewrite E|..]; assumption.
Qed.

Lemma step_upload_nonempty (w : World) (e : Event) :
  completesUpload w e = true -> historyStack (app (step w e)) <> [].
Proof.
  destruct e as [| | | | | | |i r now]; try discriminate. simpl. unfold settle.
  destruct r as [d| | |]; try discriminate.
  destruct (nth_error (pending w) i) as [[f|fr|fr]|]; discriminate.
Qed.

Lemma step_empty (w : World) (e : Event) :
  worldOk w -> historyStack (app w) = [] -> completesUpload w e = false ->
  historyStack (app (step w e)) = [].
Proof.
  intros Hw He Hc.
  destruct (step_stack_cases w e) as [E|[[C _]|[[i [fr Hi]] _]]].
  - congruence.
  - congruence.
  - pose proof (Forall_nth_error _ _ _ _ (proj2 Hw) Hi) as [_ N].
    contradiction.
Qed.

Lemma run_empty_iff (es : list Event) (w : World) :
  worldOk w ->
  (historyStack (app (run w es)) = []
   <-> historyStack (app w) = [] /\ uploadsCompleted w es = 0%nat).
Proof.
  revert w. induction es as [|e es IH]; intros w Hw.
  - simpl. tauto.
  - rewrite run_cons, (IH _ (step_ok w e Hw)). simpl.
    destruct (completesUpload w e) eqn:C.
    + pose proof (step_upload_nonempty w e C). split; [tauto|].
      intros [_ D]. discriminate.
    + simpl. split.
      * intros [E U]. split; [|exact U].
        destruct (historyStack (app w)) eqn:S; [reflexivity|].
        exfalso. apply (step_nonempty w e); [rewrite S; discriminate|exact E].
      * intros [E U]. split; [|exact U]. apply step_empty; assumption.
Qed.

(** C5. Along every sequence of events, starting from the component's
    initial state, the cursor is inside the stack whenever the stack is
    not empty, and the stack is empty exactly as long as no base-image
    upload has completed. *)
Theorem cursor_in_range_always (es : list Event) :
  let a := app (run initialWorld es) in
  (historyStack a <> [] ->
   0 <= historyIndex a < Z.of_nat (length (historyStack a)))
  /\ (historyStack a = [] <-> uploadsCompleted initialWorld es = 0%nat).
Proof.
  intros a. split.
  - intros N. destruct (run_ok es _ initialWorld_ok) as [[[E _]|H] _].
    + contradiction.
    + exact H.
  - unfold a. rewrite (run_empty_iff es _ initialWorld_ok). simpl. tauto.
Qed.

(** ** Suspending and resuming *)

Lemma nth_error_snoc {A : Type} (l : list A) (x : A) :
  nth_error (l ++ [x]) (length l) = Some x.
Proof. rewrite nth_error_app2, Nat.sub_diag by lia. reflexivity. Qed.

Lemma drop_snoc {A : Type} (l : list A) (x : A) :
  firstn (length l) (l ++ [x]) ++ skipn (S (length l)) (l ++ [x]) = l.
Proof.
  rewrite firstn_app, Nat.sub_diag, firstn_all, skipn_app, skipn_all2 by (simpl; lia).
  replace (S (length l) - length l)%nat with 1%nat by lia.
  simpl. rewrite !app_nil_r. reflexivity.
Qed.

Lemma dropTask_suspend (t : Task) (w : World) :
  dropTask (length (pending w)) (suspend t w) = w.
Proof.
  destruct w as [a p u r c]. unfold dropTask, suspend.
  cbn [app pending objectURLs revoked calls]. rewrite drop_snoc. reflexivity.
Qed.

(** Settling the task that was suspended last runs the rest of its
    handler in the world as it was when the task was suspended. *)
Lemma settle_upload (f : File.t) (r : option jsstring) (now : Z) (w : World) :
  settle (length (pending w))
         (match r with Some d => FileLoaded d | None => FileFailed end) now
         (suspend (AwaitUploadRead f) w)
  = initialImageUploadResumed f r now w.
Proof.
  unfold settle. rewrite dropTask_suspend.
  change (pending (suspend (AwaitUploadRead f) w))
    with (pending w ++ [AwaitUploadRead f]).
  rewrite nth_error_snoc. destruct r; reflexivity.
Qed.

Lemma settle_contextRead (fr : EditFrame) (r : option jsstring) (now : Z)
    (w : World) :
  settle (length (pending w))
         (match r with Some d => FileLoaded d | None => FileFailed end) now
         (suspend (AwaitContextRead fr) w)
  = contextReadResumed fr r w.
Proof.
  unfold settle. rewrite dropTask_suspend.
  change (pending (suspend (AwaitContextRead fr) w))
    with (pending w ++ [AwaitContextRead fr]).
  rewrite nth_error_snoc. destruct r; reflexivity.
Qed.

Lemma settle_editImage (fr : EditFrame) (r : jsstring * jsstring + jsstring)
    (now : Z) (w : World) :
  settle (length (pending w))
         (match r with
          | inl (b, m) => EditResolved b m
          | inr msg => EditRejected msg
          end) now
         (suspend (AwaitEditImage fr) w)
  = editImageResumed fr r now w.
Proof.
  unfold settle. rewrite dropTask_suspend.
  change (pending (suspend (AwaitEditImage fr) w))
    with (pending w ++ [AwaitEditImage fr]).
  rewrite nth_error_snoc. destruct r as [[b m]|msg]; reflexivity.
Qed.

(** [handleEdit] in a render that lets it go ahead. *)
Lemma handleEdit_accepts (now : Z) (w : World) :
  canSubmit (app w) ->
  exists cur,
    current (app w) = Some cur
    /\ let fr := mkFrame (app w) cur (userEntry now (app w)) in
       let w1 := withApp (fun s =>
                   setChatHistory (chatHistory s ++ [userEntry now (app w)])
                     (setError None (setIsLoading true s))) w in
       handleEdit now w
       = match contextImage (app w) with
         | Some _ => suspend (AwaitContextRead fr) w1
         | None => callEditImage fr None w1
         end.
Proof.
  intros (Hr & Hb & Hl).
  destruct (index_in_range _ _ Hr) as [cur Hc].
  exists cur. split; [exact Hc|]. intros fr w1.
  unfold handleEdit. rewrite Hc.
  assert (T : truthy (trim (prompt (app w))) = true).
  { destruct (truthy _) eqn:E; [reflexivity|].
    apply trim_falsy_iff_blank in E. congruence. }
  rewrite T, Hl. reflexivity.
Qed.

(** [handleEdit] in a render without a current image or with a blank
    prompt. *)
Lemma handleEdit_rejects (now : Z) (w : World) :
  current (app w) = None \/ blank (prompt (app w)) = true ->
  handleEdit now w
  = withApp (setError
      (Some (str "Cannot edit without a base image and a prompt."))) w.
Proof.
  intros H. unfold handleEdit. fold (current (app w)).
  destruct (current (app w)); [|reflexivity].
  destruct H as [H|H]; [discriminate|].
  apply trim_falsy_iff_blank in H. rewrite H. reflexivity.
Qed.

(** While [isLoading] is set, [handleEdit] gets no further than its
    guards: no transcript entry, no task, no call. *)
Lemma handleEdit_while_loading (now : Z) (w : World) :
  isLoading (app w) = true ->
  handleEdit now w = w
  \/ handleEdit now w
     = withApp (setError
         (Some (str "Cannot edit without a base image and a prompt."))) w.
Proof.
  intros H. unfold handleEdit.
  destruct (index _ _); [|auto].
  destruct (negb _); [auto|]. rewrite H. auto.
Qed.

(** A whole submission is the resumed handler applied to the world the
    first part of [handleEdit] left, with one [editImage] call issued. *)
Lemma run_submission (w : World) (now now' : Z) (d : jsstring)
    (r : jsstring * jsstring + jsstring) :
  canSubmit (app w) ->
  exists cur req,
    current (app w) = Some cur
    /\ run w (submission w now d (editOutcome r) now')
       = editImageResumed (mkFrame (app w) cur (userEntry now (app w))) r now'
           (editImage req
              (withApp (fun s =>
                 setChatHistory (chatHistory s ++ [userEntry now (app w)])
                   (setError None (setIsLoading true s))) w)).
Proof.
  intros H. destruct (handleEdit_accepts now w H) as (cur & Hc & He).
  cbv zeta in He. exists cur.
  set (fr := mkFrame (app w) cur (userEntry now (app w))) in *.
  set (w1 := withApp _ w) in *.
  unfold submission.
  destruct (contextImage (app w)) as [ci|] eqn:Ec.
  - eexists. split; [exact Hc|].
    cbn [List.app run fold_left step]. rewrite He.
    change (length (pending w)) with (length (pending w1)).
    rewrite (settle_contextRead fr (Some d) now w1).
    unfold contextReadResumed.
    change (contextImage (rendered fr)) with (contextImage (app w)).
    rewrite Ec. unfold callEditImage.
    match goal with
    | |- settle _ _ _ (suspend _ ?w2) = _ =>
        change (length (pending w1)) with (length (pending w2));
        unfold editOutcome; rewrite (settle_editImage fr r now' w2)
    end.
    reflexivity.
  - eexists. split; [exact Hc|].
    cbn [List.app run fold_left step]. rewrite He. unfold callEditImage.
    match goal with
    | |- settle _ _ _ (suspend _ ?w2) = _ =>
        change (length (pending w)) with (length (pending w2));
        unfold editOutcome; rewrite (settle_editImage fr r now' w2)
    end.
    reflexivity.
Qed.

Lemma filter_all {A : Type} (f : A -> bool) (l : list A) :
  (forall x, In x l -> f x = true) -> filter f l = l.
Proof.
  induction l as [|x l IH]; intros H; simpl; [reflexivity|].
  rewrite (H x (or_introl eq_refl)), IH; [reflexivity|].
  intros y Hy. apply H. right. exact Hy.
Qed.

(** Filtering out an id that only the last entry carries removes that
    entry and nothing else. *)
Lemma rollback_removes_last (l : list ChatMessage.t) (u : ChatMessage.t) :
  ~ In (ChatMessage.id u) (map ChatMessage.id l) ->
  filter (fun msg => negb (jsstring_eqb (ChatMessage.id msg) (ChatMessage.id u)))
         (l ++ [u]) = l.
Proof.
  intros H. rewrite filter_app. simpl. rewrite jsstring_eqb_refl. simpl.
  rewrite app_nil_r. apply filter_all. intros x Hx.
  destruct (jsstring_eqb (ChatMessage.id x) (ChatMessage.id u)) eqn:E;
    [|reflexivity].
  apply jsstring_eqb_eq in E. exfalso. apply H. rewrite <- E.
  apply in_map. exact Hx.
Qed.

(** A rejected [editImage], or an unreadable context file, leaves both
    history cells as they are at that moment, whatever happened since
    the submission. *)
Lemma rejection_keeps_history (w : World) (i : nat) (r : Settled) (now : Z) :
  r = FileFailed \/ (exists msg, r = EditRejected msg) ->
  historyStack (app (step w (Settle i r now))) = historyStack (app w)
  /\ historyIndex (app (step w (Settle i r now))) = historyIndex (app w).
Proof.
  intros H. simpl. unfold settle.
  destruct (nth_error (pending w) i) as [[f|fr|fr]|];
    destruct H as [->|[msg ->]]; auto;
    unfold contextReadResumed, editImageResumed, editFinally;
    destruct (contextImage (rendered fr)); auto.
Qed.

(** ** Ids are fresh while the clock advances *)

Lemma str_inj (s t : string) : str s = str t -> s = t.
Proof.
  unfold str. intros H.
  rewrite <- (string_of_list_ascii_of_string s),
          <- (string_of_list_ascii_of_string t).
  f_equal. revert H.
  generalize (list_ascii_of_string s) (list_ascii_of_string t).
  intros l. induction l as [|a l IH]; intros [|b l']; simpl;
    try discriminate; [reflexivity|].
  intros H. inversion H as [[Ha Hl]]. f_equal; [|apply IH; exact Hl].
  rewrite <- (ascii_N_embedding a), <- (ascii_N_embedding b), Ha. reflexivity.
Qed.

Lemma to_int_printable (z : Z) :
  Z.to_int z <> Decimal.Pos Decimal.Nil /\ Z.to_int z <> Decimal.Neg Decimal.Nil.
Proof.
  destruct z as [|p|p]; simpl; split; try discriminate;
    intros H; inversion H as [E];
    exact (DecimalPos.Unsigned.to_uint_nonnil p E).
Qed.

(** Two integers print to the same decimal text only if they are equal. *)
Lemma decimal_inj (a b : Z) : decimal a = decimal b -> a = b.
Proof.
  unfold decimal. intros H. apply str_inj in H.
  destruct (to_int_printable a) as [Ha1 Ha2].
  destruct (to_int_printable b) as [Hb1 Hb2].
  pose proof (NilZero.isi _ Ha1 Ha2) as Ia.
  pose proof (NilZero.isi _ Hb1 Hb2) as Ib.
  rewrite H in Ia. rewrite Ia in Ib. inversion Ib as [E].
  apply DecimalZ.to_int_inj. exact E.
Qed.

Lemma stampedBelow_mono (c c' : Z) (l : list ChatMessage.t) :
  c <= c' -> Forall (stampedBelow c) l -> Forall (stampedBelow c') l.
Proof.
  intros Hc H. induction H as [|m l (t & Ht & Hid) _ IH]; constructor; auto.
  exists t. split; [lia|exact Hid].
Qed.

Lemma Forall_filter_kept {A : Type} (P : A -> Prop) (f : A -> bool) (l : list A) :
  Forall P l -> Forall P (filter f l).
Proof.
  intros H. induction H as [|x l Hx _ IH]; simpl; [constructor|].
  destruct (f x); [constructor|]; assumption.
Qed.

(** Every event leaves the transcript as it is, or filters it, or adds
    (or restarts with) one entry whose id carries the event's reading. *)
Lemma step_chat_cases (w : World) (e : Event) :
  chatHistory (app (step w e)) = chatHistory (app w)
  \/ (exists f, chatHistory (app (step w e)) = filter f (chatHistory (app w)))
  \/ (exists now msg,
        stampOf e = Some now
        /\ (ChatMessage.id msg = str "user-" ++ decimal now
            \/ ChatMessage.id msg = str "bot-" ++ decimal now)
        /\ (chatHistory (app (step w e)) = chatHistory (app w) ++ [msg]
            \/ chatHistory (app (step w e)) = [msg])).
Proof.
  destruct e as [file|file u|v|now| | | |i r now]; cbn [step].
  - left. unfold handleInitialImageUpload. destruct file as [f|]; [|reflexivity].
    destruct (negb _); reflexivity.
  - left. unfold handleContextImageSelect. destruct file as [f|]; [|reflexivity].
    destruct (negb _); reflexivity.
  - left; reflexivity.
  - unfold handleEdit.
    destruct (index _ _); [|left; reflexivity].
    destruct (negb _); [left; reflexivity|].
    destruct (isLoading _); [left; reflexivity|].
    right; right. exists now, (userEntry now (app w)). split; [reflexivity|].
    split; [left; reflexivity|]. left. unfold userEntry.
    destruct (contextImage (app w)); reflexivity.
  - left. unfold handleUndo. cbn [app withApp].
    destruct (0 <? _); reflexivity.
  - left. unfold handleRedo. cbn [app withApp].
    destruct (_ <? _); reflexivity.
  - left. unfold discardContextImage. destruct (contextImage _); reflexivity.
  - unfold settle.
    destruct (nth_error (pending w) i) as [[f|fr|fr]|];
      destruct r as [d| |b m|msg]; try (left; reflexivity).
    + right; right. exists now, (botMessage now d (File.type f)).
      split; [reflexivity|].
      split; [right; reflexivity|]. right. reflexivity.
    + left. unfold contextReadResumed.
      destruct (contextImage (rendered fr)); reflexivity.
    + right; left. eexists. unfold contextReadResumed, editFinally, editCatch.
      destruct (contextImage (rendered fr)); reflexivity.
    + right; right.
      exists now, (botMessage now (str "data:" ++ m ++ str ";base64," ++ b) m).
      split; [reflexivity|].
      split; [right; reflexivity|]. left.
      unfold editImageResumed, editFinally.
      destruct (contextImage (rendered fr)); reflexivity.
    + right; left. eexists. unfold editImageResumed, editFinally, editCatch.
      destruct (contextImage (rendered fr)); reflexivity.
Qed.

Lemma run_stamped (es : list Event) (w : World) (c : Z) :
  Forall (stampedBelow c) (chatHistory (app w)) ->
  clockAdvances c es ->
  Forall (stampedBelow (clockAfter c es)) (chatHistory (app (run w es))).
Proof.
  revert w c. induction es as [|e es IH]; intros w c Hw Hc; [exact Hw|].
  rewrite run_cons. cbn [clockAdvances clockAfter] in *.
  destruct (step_chat_cases w e) as [E|[[f E]|(now & msg & Hs & Hid & E)]].
  - destruct (stampOf e) as [now|].
    + apply IH; [|apply Hc]. rewrite E.
      apply (stampedBelow_mono c); [lia|exact Hw].
    + apply IH; [rewrite E; exact Hw|exact Hc].
  - assert (Hf : Forall (stampedBelow c) (chatHistory (app (step w e))))
      by (rewrite E; apply Forall_filter_kept; exact Hw).
    destruct (stampOf e) as [now|].
    + apply IH; [|apply Hc]. apply (stampedBelow_mono c); [lia|exact Hf].
    + apply IH; [exact Hf|exact Hc].
  - rewrite Hs in *. destruct Hc as [Hle Hc]. apply IH; [|exact Hc].
    assert (Hm : stampedBelow (now + 1) msg) by (exists now; split; [lia|exact Hid]).
    destruct E as [E|E]; rewrite E.
    + apply Forall_app. split; [|constructor; [exact Hm|constructor]].
      apply (stampedBelow_mono c); [lia|exact Hw].
    + constructor; [exact Hm|constructor].
Qed.

(** In a session whose clock readings increase, a submission made at a
    later reading gets an id that no entry of the transcript carries. *)
Lemma submission_id_fresh (es : list Event) (c now : Z) :
  clockAdvances c es -> clockAfter c es <= now ->
  ~ In (ChatMessage.id (userEntry now (app (run initialWorld es))))
       (map ChatMessage.id (chatHistory (app (run initialWorld es)))).
Proof.
  intros Hc Hn Hin. apply in_map_iff in Hin. destruct Hin as (msg & Hid & Hm).
  pose proof (run_stamped es initialWorld c (Forall_nil _) Hc) as Hall.
  rewrite Forall_forall in Hall. destruct (Hall msg Hm) as (t & Ht & [E|E]);
    rewrite E in Hid; simpl in Hid.
  - injection Hid as Hid. apply decimal_inj in Hid. lia.
  - discriminate.
Qed.

(** ** Submissions *)

(** The uninterrupted case.
    A submission made with a current image, a prompt that is not
    blank and nothing loading, whose [editImage] call resolves before
    any other event is handled, appends to the transcript one user entry
    carrying the prompt and then one bot entry carrying the new image,
    issues one [editImage] call, and leaves the new image as the current
    version. *)
Theorem successful_submission_extends_transcript
    (w : World) (now now' : Z) (d b m : jsstring) :
  canSubmit (app w) ->
  let w' := run w (submission w now d (EditResolved b m) now') in
  let u := userEntry now (app w) in
  let v := editedImage b m in
  let reply := botMessage now' (ImageState.imageUrl v) (ImageState.mimeType v) in
  chatHistory (app w') = chatHistory (app w) ++ [u; reply]
  /\ ChatMessage.type u = user
  /\ ChatMessage.prompt u = Some (prompt (app w))
  /\ ChatMessage.type reply = bot
  /\ ChatMessage.imageUrl reply = Some (ImageState.imageUrl v)
  /\ ChatMessage.mimeType reply = Some (ImageState.mimeType v)
  /\ current (app w') = Some v
  /\ length (calls w') = S (length (calls w)).
Proof.
  intros H w' u v reply.
  destruct (run_submission w now now' d (inl (b, m)) H) as (cur & req & Hc & Hr).
  change (editOutcome (inl (b, m))) with (EditResolved b m) in Hr.
  fold w' in Hr.
  assert (Hchat : chatHistory (app w') = chatHistory (app w) ++ [u; reply]).
  { rewrite Hr. unfold editImageResumed, editFinally. cbn [rendered].
    destruct (contextImage (app w)); simpl; rewrite <- app_assoc; reflexivity. }
  assert (Hcur : current (app w') = Some v).
  { unfold current.
    destruct (editImageResumed_commits
                (mkFrame (app w) cur (userEntry now (app w))) b m now'
                (editImage req
                   (withApp (fun s =>
                      setChatHistory (chatHistory s ++ [userEntry now (app w)])
                        (setError None (setIsLoading true s))) w)))
      as [Es Ei].
    cbv zeta in Es, Ei. rewrite <- Hr in Es, Ei. rewrite Es, Ei.
    apply commitEdit_current. }
  assert (Hcalls : length (calls w') = S (length (calls w))).
  { rewrite Hr. unfold editImageResumed, editFinally. cbn [rendered].
    destruct (contextImage (app w)); simpl; rewrite length_app; simpl; lia. }
  repeat split; assumption.
Qed.

Lemma successful_submission_extends_transcript_witness :
  canSubmit (app prompted)
  /\ map ChatMessage.id
       (chatHistory
          (app (run prompted
                  (submission prompted 2000 [] (EditResolved (str "WFla") (str "image/png"))
                              3000))))
     = [str "bot-1000"; str "user-2000"; str "bot-3000"]
  /\ current
       (app (run prompted
               (submission prompted 2000 [] (EditResolved (str "WFla") (str "image/png"))
                           3000)))
     = Some (ImageState.mk (str "data:image/png;base64,WFla") (str "image/png")).
Proof.
  assert (H : canSubmit (app prompted)).
  { unfold canSubmit, cursorInRange. vm_compute. intuition congruence. }
  destruct (successful_submission_extends_transcript
              prompted 2000 3000 [] (str "WFla") (str "image/png") H)
    as (Hchat & _ & _ & _ & _ & _ & Hcur & _).
  split; [exact H|]. split; [rewrite Hchat; reflexivity|exact Hcur].
Defined.

(** The uninterrupted case with a fresh id.
    A submission whose [editImage] call is rejected before any
    other event is handled leaves the stack and the cursor as they
    were, and the transcript too: the one entry the submission added is
    taken out again and the earlier entries stay, in their order.  The
    entry is found by its id, which no earlier entry carries. *)
Theorem failed_submission_rolls_back
    (w : World) (now now' : Z) (d message : jsstring) :
  canSubmit (app w) ->
  ~ In (ChatMessage.id (userEntry now (app w)))
       (map ChatMessage.id (chatHistory (app w))) ->
  let w' := run w (submission w now d (EditRejected message) now') in
  historyStack (app w') = historyStack (app w)
  /\ historyIndex (app w') = historyIndex (app w)
  /\ chatHistory (app w') = chatHistory (app w)
  /\ error (app w') = Some message.
Proof.
  intros H Hfresh w'.
  destruct (run_submission w now now' d (inr message) H) as (cur & req & Hc & Hr).
  change (editOutcome (inr message)) with (EditRejected message) in Hr.
  fold w' in Hr.
  assert (Hchat : chatHistory (app w')
                  = filter (fun msg => negb (jsstring_eqb (ChatMessage.id msg)
                              (ChatMessage.id (userEntry now (app w)))))
                           (chatHistory (app w) ++ [userEntry now (app w)])).
  { rewrite Hr. unfold editImageResumed, editFinally, editCatch.
    cbn [rendered userMessage]. destruct (contextImage (app w)); reflexivity. }
  rewrite Hchat, (rollback_removes_last _ _ Hfresh), Hr.
  unfold editImageResumed, editFinally, editCatch. cbn [rendered userMessage].
  destruct (contextImage (app w)); auto.
Qed.

Lemma failed_submission_rolls_back_witness :
  canSubmit (app prompted)
  /\ ~ In (ChatMessage.id (userEntry 2000 (app prompted)))
          (map ChatMessage.id (chatHistory (app prompted)))
  /\ chatHistory
       (app (run prompted
               (submission prompted 2000 []
                  (EditRejected (str "Failed to edit image: quota")) 3000)))
     = chatHistory (app prompted)
  /\ historyIndex
       (app (run prompted
               (submission prompted 2000 []
                  (EditRejected (str "Failed to edit image: quota")) 3000)))
     = 0.
Proof.
  assert (H : canSubmit (app prompted)).
  { unfold canSubmit, cursorInRange. vm_compute. intuition congruence. }
  assert (F : ~ In (ChatMessage.id (userEntry 2000 (app prompted)))
                   (map ChatMessage.id (chatHistory (app prompted)))).
  { vm_compute. intuition congruence. }
  destruct (failed_submission_rolls_back prompted 2000 3000 []
              (str "Failed to edit image: quota") H F)
    as (_ & Hi & Hchat & _).
  split; [exact H|]. split; [exact F|]. split; [exact Hchat|].
  rewrite Hi. reflexivity.
Defined.

(** C8. Without a base image, or with a blank prompt, [handleEdit] only
    sets the error text: history, transcript and context image are
    untouched, nothing is suspended and no [editImage] call is issued. *)
Theorem edit_without_base_or_prompt_rejected (w : World) (now : Z) :
  historyStack (app w) = [] \/ blank (prompt (app w)) = true ->
  let w' := step w (Edit now) in
  w' = withApp (setError
         (Some (str "Cannot edit without a base image and a prompt."))) w
  /\ chatHistory (app w') = chatHistory (app w)
  /\ historyStack (app w') = historyStack (app w)
  /\ historyIndex (app w') = historyIndex (app w)
  /\ contextImage (app w') = contextImage (app w)
  /\ pending w' = pending w
  /\ calls w' = calls w
  /\ revoked w' = revoked w
  /\ error (app w')
     = Some (str "Cannot edit without a base image and a prompt.").
Proof.
  intros H w'.
  assert (E : w' = withApp (setError
         (Some (str "Cannot edit without a base image and a prompt."))) w).
  { unfold w'. simpl. apply handleEdit_rejects.
    destruct H as [H|H]; [left|right; exact H].
    unfold current. rewrite H. apply index_nil. }
  rewrite E. repeat split; reflexivity.
Qed.

Lemma edit_without_base_or_prompt_rejected_witness :
  (historyStack (app initialWorld) = [] \/ blank (prompt (app initialWorld)) = true)
  /\ (historyStack (app uploaded) = []
      \/ blank (prompt (app (step uploaded (PromptChange (str "  "))))) = true)
  /\ chatHistory (app (step initialWorld (Edit 5))) = []
  /\ calls (step (step uploaded (PromptChange (str "  "))) (Edit 5)) = [].
Proof.
  assert (H1 : historyStack (app initialWorld) = []
               \/ blank (prompt (app initialWorld)) = true)
    by (left; reflexivity).
  assert (H2 : historyStack (app (step uploaded (PromptChange (str "  ")))) = []
               \/ blank (prompt (app (step uploaded (PromptChange (str "  "))))) = true)
    by (right; reflexivity).
  destruct (edit_without_base_or_prompt_rejected initialWorld 5 H1)
    as (_ & Hchat & _).
  destruct (edit_without_base_or_prompt_rejected _ 5 H2)
    as (_ & _ & _ & _ & _ & _ & Hcalls & _).
  split; [exact H1|]. split; [right; reflexivity|].
  split; [exact Hchat|exact Hcalls].
Defined.

(** ** Uploading a base image *)

Lemma handleInitialImageUpload_suspends (f : File.t) (w : World) :
  startsWith (File.type f) (str "image/") = true ->
  handleInitialImageUpload (Some f) w
  = suspend (AwaitUploadRead f)
      (withApp (fun a => setError None (setIsLoading true a)) w).
Proof. intros H. unfold handleInitialImageUpload. rewrite H. reflexivity. Qed.

(** The cells after a base image has been read: only the error text
    survives from before. *)
Lemma upload_settled (w : World) (i : nat) (f : File.t) (dataUrl : jsstring)
    (now : Z) :
  nth_error (pending w) i = Some (AwaitUploadRead f) ->
  app (step w (Settle i (FileLoaded dataUrl) now))
  = mkApp [botMessage now dataUrl (File.type f)]
          [ImageState.mk dataUrl (File.type f)] 0 None [] false
          (error (app w)).
Proof. intros H. simpl. unfold settle. rewrite H. reflexivity. Qed.

Lemma run_upload (w : World) (f : File.t) (dataUrl : jsstring) (now : Z) :
  startsWith (File.type f) (str "image/") = true ->
  app (run w [InitialImageUpload (Some f);
              Settle (length (pending w)) (FileLoaded dataUrl) now])
  = mkApp [botMessage now dataUrl (File.type f)]
          [ImageState.mk dataUrl (File.type f)] 0 None [] false None.
Proof.
  intros H. cbn [run fold_left step].
  rewrite (handleInitialImageUpload_suspends f w H).
  match goal with
  | |- app (settle _ _ _ (suspend _ ?w1)) = _ =>
      change (length (pending w)) with (length (pending w1));
      rewrite (settle_upload f (Some dataUrl) now w1)
  end.
  reflexivity.
Qed.

(** C7. Whatever the state before, an upload of an image file whose
    read succeeds leaves the stack holding just the uploaded image with
    the cursor on it; history, transcript, prompt and context image are
    what the same upload gives in a fresh session. *)
Theorem upload_resets_history (w : World) (f : File.t) (dataUrl : jsstring)
    (now : Z) :
  startsWith (File.type f) (str "image/") = true ->
  let upload n :=
    [InitialImageUpload (Some f); Settle n (FileLoaded dataUrl) now] in
  let a' := app (run w (upload (length (pending w)))) in
  let fresh := app (run initialWorld (upload 0%nat)) in
  historyStack a' = [ImageState.mk dataUrl (File.type f)]
  /\ historyIndex a' = 0
  /\ current a' = Some (ImageState.mk dataUrl (File.type f))
  /\ a' = fresh.
Proof.
  intros H upload a' fresh.
  assert (E : a' = mkApp [botMessage now dataUrl (File.type f)]
                     [ImageState.mk dataUrl (File.type f)] 0 None [] false None)
    by (apply run_upload; exact H).
  assert (E' : fresh = mkApp [botMessage now dataUrl (File.type f)]
                     [ImageState.mk dataUrl (File.type f)] 0 None [] false None)
    by (apply (run_upload initialWorld); exact H).
  rewrite E, E'. repeat split; reflexivity.
Qed.

Lemma upload_resets_history_witness :
  startsWith (File.type logoJpg) (str "image/") = true
  /\ historyStack
       (app (run (run prompted (submission prompted 2000 []
                                  (EditResolved (str "WFla") (str "image/png")) 3000))
                 [InitialImageUpload (Some logoJpg);
                  Settle 0 (FileLoaded logoDataUrl) 4000]))
     = [ImageState.mk logoDataUrl (str "image/jpeg")]
  /\ historyIndex
       (app (run (run prompted (submission prompted 2000 []
                                  (EditResolved (str "WFla") (str "image/png")) 3000))
                 [InitialImageUpload (Some logoJpg);
                  Settle 0 (FileLoaded logoDataUrl) 4000]))
     = 0.
Proof.
  assert (H : startsWith (File.type logoJpg) (str "image/") = true)
    by reflexivity.
  destruct (upload_resets_history
              (run prompted (submission prompted 2000 []
                               (EditResolved (str "WFla") (str "image/png")) 3000))
              logoJpg logoDataUrl 4000 H)
    as (Hs & Hi & _).
  split; [exact H|]. split; [exact Hs|exact Hi].
Defined.

(** C10. Once the file of a base-image upload has been read, the
    transcript is a single bot entry showing the uploaded image, which
    is also the current version, and no context image is pending. *)
Theorem upload_starts_transcript (w : World) (i : nat) (f : File.t)
    (dataUrl : jsstring) (now : Z) :
  nth_error (pending w) i = Some (AwaitUploadRead f) ->
  let a' := app (step w (Settle i (FileLoaded dataUrl) now)) in
  exists entry,
    chatHistory a' = [entry]
    /\ ChatMessage.type entry = bot
    /\ ChatMessage.imageUrl entry = Some dataUrl
    /\ ChatMessage.mimeType entry = Some (File.type f)
    /\ current a' = Some (ImageState.mk dataUrl (File.type f))
    /\ contextImage a' = None.
Proof.
  intros H a'. unfold a'. rewrite (upload_settled w i f dataUrl now H).
  exists (botMessage now dataUrl (File.type f)).
  repeat split; reflexivity.
Qed.

Lemma upload_starts_transcript_witness :
  nth_error (pending (step prompted (InitialImageUpload (Some logoJpg)))) 0
  = Some (AwaitUploadRead logoJpg)
  /\ exists entry,
       chatHistory (app (run prompted [InitialImageUpload (Some logoJpg);
                                       Settle 0 (FileLoaded logoDataUrl) 4000]))
       = [entry]
       /\ ChatMessage.type entry = bot
       /\ ChatMessage.imageUrl entry = Some logoDataUrl.
Proof.
  assert (H : nth_error (pending (step prompted (InitialImageUpload (Some logoJpg)))) 0
              = Some (AwaitUploadRead logoJpg)) by reflexivity.
  destruct (upload_starts_transcript _ 0%nat logoJpg logoDataUrl 4000 H)
    as (entry & Hc & Ht & Hu & _).
  split; [exact H|]. exists entry. split; [exact Hc|]. split; [exact Ht|exact Hu].
Defined.

(** ** The preview URL of the context image *)

(** Removing the context image by hand revokes its URL once. *)
Lemma discard_releases_once (w : World) (ci : ContextImage.t) :
  contextImage (app w) = Some ci ->
  revoked (step w DiscardContext) = revoked w ++ [ContextImage.url ci]
  /\ contextImage (app (step w DiscardContext)) = None.
Proof.
  intros H. simpl. unfold discardContextImage. rewrite H. split; reflexivity.
Qed.

(** A submission with nothing else happening meanwhile revokes the URL
    of its context image once, whether [editImage] resolves or not. *)
Lemma submission_releases_once (w : World) (ci : ContextImage.t)
    (now now' : Z) (d : jsstring) (r : jsstring * jsstring + jsstring) :
  canSubmit (app w) ->
  contextImage (app w) = Some ci ->
  let w' := run w (submission w now d (editOutcome r) now') in
  revoked w' = revoked w ++ [ContextImage.url ci]
  /\ contextImage (app w') = None.
Proof.
  intros H Hc w'.
  destruct (run_submission w now now' d r H) as (cur & req & _ & Hr).
  fold w' in Hr. rewrite Hr.
  unfold editImageResumed, editFinally. cbn [rendered]. rewrite Hc.
  destruct r as [[b m]|msg]; split; reflexivity.
Qed.

(** C4. The URL of a context image is not always revoked exactly once.
    Attaching a second image over the first, or uploading a new base
    image, drops the first URL without revoking it, although nothing
    holds it any more; removing the context image by hand while its
    submission is under way revokes the URL then and again when the
    submission completes.  Every event of the three runs is one the
    page delivers. *)
Theorem context_url_leaked_or_released_twice :
  (exists w, deliver initialWorld attachTwice = Some w
     /\ objectURLs w = [str "blob:1"; str "blob:2"]
     /\ held (str "blob:1") w = false
     /\ releases (str "blob:1") w = 0%nat
     /\ releases (str "blob:2") w = 1%nat)
  /\ (exists w, deliver initialWorld attachThenUpload = Some w
     /\ objectURLs w = [str "blob:1"]
     /\ held (str "blob:1") w = false
     /\ releases (str "blob:1") w = 0%nat)
  /\ (exists w, deliver initialWorld discardWhileSubmitting = Some w
     /\ objectURLs w = [str "blob:1"]
     /\ held (str "blob:1") w = false
     /\ releases (str "blob:1") w = 2%nat).
Proof.
  split; [|split]; eexists; (split; [vm_compute; reflexivity|]);
    repeat split; vm_compute; reflexivity.
Qed.

(** ** One call at a time *)

(** C6. With an edit under way, uploading a new base image clears
    [isLoading] when its file has been read; [handleEdit] then goes
    ahead again: it appends a user entry and issues a second
    [editImage] call while the first is still outstanding.  Every event
    of the run is one the page delivers. *)
Theorem second_call_while_first_outstanding :
  exists w,
    deliver initialWorld uploadWhileSubmitting = Some w
    /\ outstandingCalls w = 1%nat
    /\ isLoading (app w) = false
    /\ enabled w (Edit 4000) = true
    /\ outstandingCalls (step w (Edit 4000)) = 2%nat
    /\ length (calls (step w (Edit 4000))) = S (length (calls w))
    /\ chatHistory (app (step w (Edit 4000)))
       = chatHistory (app w) ++ [userEntry 4000 (app w)].
Proof.
  eexists. split; [vm_compute; reflexivity|].
  repeat split; vm_compute; reflexivity.
Qed.

(** ** The error text *)

(** An event either leaves the error text alone or overwrites it with a
    text that does not depend on the one shown before. *)
Lemma error_overwritten_or_kept (w : World) (e : Event) (x : option jsstring) :
  error (app (step (withApp (setError x) w) e)) = error (app (step w e))
  \/ (error (app (step w e)) = error (app w)
      /\ error (app (step (withApp (setError x) w) e)) = x).
Proof.
  destruct e as [file|file u|v|now| | | |i r now]; cbn [step].
  - unfold handleInitialImageUpload. destruct file as [f|].
    + destruct (negb _); kept_or_overwritten.
    + kept_or_overwritten.
  - unfold handleContextImageSelect. destruct file as [f|].
    + destruct (negb _); kept_or_overwritten.
    + kept_or_overwritten.
  - kept_or_overwritten.
  - unfold handleEdit. same_cells.
    destruct (index (historyStack (app w)) (historyIndex (app w)));
      [|kept_or_overwritten].
    destruct (negb _); [kept_or_overwritten|].
    destruct (isLoading (app w)); [kept_or_overwritten|].
    destruct (contextImage (app w)); kept_or_overwritten.
  - unfold handleUndo. same_cells.
    destruct (0 <? historyIndex (app w)); kept_or_overwritten.
  - unfold handleRedo. same_cells.
    destruct (historyIndex (app w) <? _); kept_or_overwritten.
  - unfold discardContextImage. same_cells.
    destruct (contextImage (app w)); kept_or_overwritten.
  - unfold settle. same_cells.
    destruct (nth_error (pending w) i) as [[f|fr|fr]|];
      destruct r as [d| |b m|msg]; try kept_or_overwritten;
      unfold contextReadResumed, editImageResumed, editFinally;
      destruct (contextImage (rendered fr)); kept_or_overwritten.
Qed.

Lemma navigation_keeps_error (w : World) (e : Event) :
  navigation e = true -> error (app (step w e)) = error (app w).
Proof.
  destruct e; try discriminate; intros _; cbn [step].
  - reflexivity.
  - unfold handleUndo. cbn [app withApp].
    destruct (0 <? historyIndex (app w)); reflexivity.
  - unfold handleRedo. cbn [app withApp].
    destruct (historyIndex (app w) <? _); reflexivity.
  - unfold discardContextImage. destruct (contextImage (app w)); reflexivity.
Qed.

Lemma accepted_submission_clears_error (w : World) (now : Z) :
  canSubmit (app w) -> error (app (step w (Edit now))) = None.
Proof.
  intros H. destruct (handleEdit_accepts now w H) as (cur & _ & He).
  cbn [step]. cbv zeta in He. rewrite He.
  destruct (contextImage (app w)); reflexivity.
Qed.

Lemma successful_submission_no_error (w : World) (now now' : Z)
    (d b m : jsstring) :
  canSubmit (app w) ->
  error (app (run w (submission w now d (EditResolved b m) now'))) = None.
Proof.
  intros H.
  destruct (run_submission w now now' d (inl (b, m)) H) as (cur & req & _ & Hr).
  change (editOutcome (inl (b, m))) with (EditResolved b m) in Hr.
  rewrite Hr. unfold editImageResumed, editFinally. cbn [rendered].
  destruct (contextImage (app w)); reflexivity.
Qed.

(** The error text set by a rejected context file is still shown after
    an undo that moved the cursor from 1 to 0. *)
Lemma error_outlives_undo :
  let w := run initialWorld errorShown in
  deliver initialWorld (errorShown ++ [Undo]) = Some (step w Undo)
  /\ historyIndex (app w) = 1
  /\ historyIndex (app (step w Undo)) = 0
  /\ error (app w) = Some (str "Please upload a valid image file for context.")
  /\ error (app (step w Undo)) <> None.
Proof.
  cbv zeta.
  split; [vm_compute; reflexivity|]. split; [vm_compute; reflexivity|].
  split; [vm_compute; reflexivity|]. split; [vm_compute; reflexivity|].
  vm_compute. discriminate.
Qed.

(** C9, amended.  The component has one error cell, and an event either
    leaves its text alone or replaces it by a text that does not depend
    on the earlier one.  The text is cleared when the upload of an image
    file starts and when a submission gets past its guards, so none is
    shown after such an upload or submission has succeeded with nothing
    in between.  Undo, redo, typing in the prompt and removing the
    context image leave the text as it is. *)
Theorem error_latest_wins_cleared_by_upload_or_submission
    (w wu ws : World) (e : Event) (x : option jsstring)
    (f : File.t) (d b m : jsstring) (now now' : Z) :
  startsWith (File.type f) (str "image/") = true ->
  canSubmit (app ws) ->
  (error (app (step (withApp (setError x) w) e)) = error (app (step w e))
   \/ (error (app (step w e)) = error (app w)
       /\ error (app (step (withApp (setError x) w) e)) = x))
  /\ (navigation e = true -> error (app (step w e)) = error (app w))
  /\ error (app (step wu (InitialImageUpload (Some f)))) = None
  /\ error (app (run wu [InitialImageUpload (Some f);
                         Settle (length (pending wu)) (FileLoaded d) now]))
     = None
  /\ error (app (step ws (Edit now))) = None
  /\ error (app (run ws (submission ws now d (EditResolved b m) now'))) = None.
Proof.
  intros Hf Hs.
  split; [apply error_overwritten_or_kept|].
  split; [apply navigation_keeps_error|].
  split; [cbn [step]; rewrite (handleInitialImageUpload_suspends f wu Hf);
          reflexivity|].
  split; [rewrite (run_upload wu f d now Hf); reflexivity|].
  split; [apply accepted_submission_clears_error; exact Hs|].
  apply successful_submission_no_error; exact Hs.
Qed.

Lemma error_latest_wins_cleared_by_upload_or_submission_witness :
  let shown := run initialWorld errorShown in
  let ws := step shown (PromptChange (str "make it red")) in
  startsWith (File.type logoJpg) (str "image/") = true
  /\ canSubmit (app ws)
  /\ error (app ws) <> None
  /\ error (app (step shown (InitialImageUpload (Some logoJpg)))) = None
  /\ error (app (step ws (Edit 4000))) = None.
Proof.
  intros shown ws.
  assert (Hf : startsWith (File.type logoJpg) (str "image/") = true)
    by reflexivity.
  assert (Hs : canSubmit (app ws)).
  { unfold canSubmit, cursorInRange. vm_compute. intuition congruence. }
  destruct (error_latest_wins_cleared_by_upload_or_submission
              shown shown ws Undo None logoJpg [] (str "WFla") (str "image/png")
              4000 5000 Hf Hs)
    as (_ & _ & Hu & _ & He & _).
  split; [exact Hf|]. split; [exact Hs|].
  split; [vm_compute; discriminate|]. split; [exact Hu|exact He].
Defined.

(** ** Data URLs *)

Lemma split_cases (sep : N) (s : jsstring) :
  (~ In sep s /\ split sep s = [s])
  \/ (exists p r, s = p ++ sep :: r /\ ~ In sep p
                  /\ split sep s = p :: split sep r).
Proof.
  induction s as [|c s IH]; simpl.
  - left. split; [tauto|reflexivity].
  - destruct (N.eqb c sep) eqn:E.
    + apply N.eqb_eq in E. subst c. right. exists [], s.
      split; [reflexivity|]. split; [simpl; tauto|reflexivity].
    + apply N.eqb_neq in E.
      destruct IH as [[Hn Hs]|(p & r & Hs & Hp & Hsp)].
      * left. rewrite Hs. split; [|reflexivity]. intros [H|H]; congruence.
      * right. exists (c :: p), r. rewrite Hsp. subst s.
        split; [reflexivity|]. split; [|reflexivity].
        simpl. intros [H|H]; congruence.
Qed.

Lemma split_without_sep (sep : N) (s : jsstring) :
  ~ In sep s -> split sep s = [s].
Proof.
  intros H. destruct (split_cases sep s) as [[_ E]|(p & r & E & _)];
    [exact E|].
  exfalso. apply H. rewrite E. apply in_or_app. right. left. reflexivity.
Qed.

Lemma split_at_first_sep (sep : N) (p r : jsstring) :
  ~ In sep p -> split sep (p ++ sep :: r) = p :: split sep r.
Proof.
  induction p as [|c p IH]; intros H; simpl.
  - rewrite N.eqb_refl. reflexivity.
  - destruct (N.eqb c sep) eqn:E.
    + apply N.eqb_eq in E. exfalso. apply H. left. exact E.
    + rewrite IH; [reflexivity|]. intros Hp. apply H. right. exact Hp.
Qed.

(** No piece of a split contains the separator. *)
Lemma split_pieces_clean (sep : N) (s : jsstring) :
  Forall (fun piece => ~ In sep piece) (split sep s).
Proof.
  induction s as [|c s IH]; simpl.
  - constructor; [simpl; tauto|constructor].
  - destruct (N.eqb c sep) eqn:E.
    + constructor; [simpl; tauto|exact IH].
    + apply N.eqb_neq in E. destruct (split sep s) as [|h t].
      * constructor; [|constructor]. simpl. intros [H|H]; congruence.
      * inversion IH as [|? ? Hh Ht]; subst. constructor; [|exact Ht].
        simpl. intros [H|H]; [congruence|exact (Hh H)].
Qed.

(** X1. The image URL [handleEdit] builds from an [editImage] result
    gives that result's base64 text back under [dataUrlToBase64], as
    long as neither the mime type nor the base64 text has a comma. *)
Theorem dataUrl_round_trip (newMimeType newBase64 : jsstring) :
  ~ In 44%N newMimeType -> ~ In 44%N newBase64 ->
  dataUrlToBase64 (ImageState.imageUrl (editedImage newBase64 newMimeType))
  = Some newBase64.
Proof.
  intros Hm Hb. unfold dataUrlToBase64, editedImage. cbn [ImageState.imageUrl].
  change (str ";base64," ++ newBase64)
    with (str ";base64" ++ 44%N :: newBase64).
  rewrite !app_assoc.
  rewrite split_at_first_sep.
  - rewrite (split_without_sep _ _ Hb). reflexivity.
  - intros H. apply in_app_or in H. destruct H as [H|H].
    + apply in_app_or in H. destruct H as [H|H]; [|exact (Hm H)].
      vm_compute in H. intuition discriminate.
    + vm_compute in H. intuition discriminate.
Qed.

Lemma dataUrl_round_trip_witness :
  ~ In 44%N (str "image/png") /\ ~ In 44%N (str "WFla")
  /\ dataUrlToBase64 (str "data:image/png;base64,WFla") = Some (str "WFla").
Proof.
  assert (Hm : ~ In 44%N (str "image/png"))
    by (vm_compute; intuition discriminate).
  assert (Hb : ~ In 44%N (str "WFla"))
    by (vm_compute; intuition discriminate).
  split; [exact Hm|]. split; [exact Hb|].
  exact (dataUrl_round_trip (str "image/png") (str "WFla") Hm Hb).
Defined.

(** X2. [dataUrlToBase64] is [undefined] exactly for a text without a
    comma; otherwise it is the text between the first comma and the
    next one, or the end. *)
Theorem dataUrlToBase64_between_commas (dataUrl : jsstring) :
  (dataUrlToBase64 dataUrl = None <-> ~ In 44%N dataUrl)
  /\ forall b, dataUrlToBase64 dataUrl = Some b ->
       ~ In 44%N b
       /\ exists p r, ~ In 44%N p
            /\ (dataUrl = p ++ 44%N :: b \/ dataUrl = p ++ 44%N :: b ++ 44%N :: r).
Proof.
  unfold dataUrlToBase64.
  destruct (split_cases 44%N dataUrl) as [[Hn E]|(p & r & E & Hp & Es)].
  - rewrite E. simpl. split; [tauto|discriminate].
  - rewrite Es. simpl.
    assert (Hin : In 44%N dataUrl).
    { rewrite E. apply in_or_app. right. left. reflexivity. }
    destruct (split_cases 44%N r) as [[Hr Er]|(b' & r' & Er & Hb' & Ers)].
    + rewrite Er. simpl. split; [split; [discriminate|tauto]|].
      intros b Hb. inversion Hb; subst b. split; [exact Hr|].
      exists p, []. split; [exact Hp|]. left. exact E.
    + rewrite Ers. simpl. split; [split; [discriminate|tauto]|].
      intros b Hb. inversion Hb; subst b. split; [exact Hb'|].
      exists p, r'. split; [exact Hp|]. right. rewrite E, Er. reflexivity.
Qed.

(** ** The image service *)

Lemma find_first {A : Type} (f : A -> bool) (l : list A) (x : A) :
  find f l = Some x
  <-> exists pre post,
        l = pre ++ x :: post /\ f x = true
        /\ Forall (fun y => f y = false) pre.
Proof.
  induction l as [|a l IH]; simpl.
  - split; [discriminate|]. intros (pre & post & E & _).
    destruct pre; discriminate.
  - destruct (f a) eqn:Fa.
    + split.
      * intros H. inversion H; subst a. exists [], l. auto.
      * intros (pre & post & E & Fx & Hpre). destruct pre as [|y pre].
        -- simpl in E. inversion E. reflexivity.
        -- simpl in E. inversion E; subst y. inversion Hpre; congruence.
    + rewrite IH. split.
      * intros (pre & post & E & Fx & Hpre). exists (a :: pre), post.
        subst l. split; [reflexivity|]. split; [exact Fx|].
        constructor; assumption.
      * intros (pre & post & E & Fx & Hpre). destruct pre as [|y pre].
        -- simpl in E. inversion E; subst a. congruence.
        -- simpl in E. inversion E; subst y l. inversion Hpre; subst.
           exists pre, post. auto.
Qed.

(** X3. [editImage] resolves exactly when the remote call returns a
    response whose parts include one with inline data, and then with
    the data and mime type of the first such part. *)
Theorem editImage_resolves_with_first_image
    (generateContent : list RequestPart -> Generated)
    (baseImage : option jsstring * jsstring) (prompt : jsstring)
    (contextImage : option (option jsstring * jsstring))
    (data mimeType : jsstring) :
  GeminiService.editImage generateContent baseImage prompt contextImage
  = inl (data, mimeType)
  <-> exists before after t,
        generateContent (GeminiService.parts baseImage prompt contextImage)
        = Responded (Some (before ++ mkPart (Some (data, mimeType)) t :: after))
        /\ Forall (fun part => inlineData part = None) before.
Proof.
  unfold GeminiService.editImage.
  set (f := fun part : ResponsePart =>
              match inlineData part with Some _ => true | None => false end).
  destruct (generateContent _) as [[l|]|m|].
  - destruct (find f l) as [[[[d m]|] t]|] eqn:E.
    + pose proof E as E0.
      apply find_first in E. destruct E as (pre & post & El & _ & Hpre).
      assert (Hnone : Forall (fun part => inlineData part = None) pre).
      { eapply Forall_impl; [|exact Hpre]. intros q Hq. unfold f in Hq.
        destruct (inlineData q); [discriminate|reflexivity]. }
      split.
      * intros H. inversion H; subst d m. exists pre, post, t. subst l. auto.
      * intros (before & after & t' & Eg & Hb). inversion Eg as [El'].
        assert (Ef : find f l = Some (mkPart (Some (data, mimeType)) t')).
        { apply find_first. exists before, after. rewrite El'.
          split; [reflexivity|]. split; [reflexivity|].
          eapply Forall_impl; [|exact Hb]. intros q Hq. unfold f.
          rewrite Hq. reflexivity. }
        rewrite E0 in Ef. inversion Ef. reflexivity.
    + apply find_first in E. destruct E as (_ & _ & _ & Hf & _). discriminate.
    + split; [discriminate|].
      intros (before & after & t' & Eg & Hb). inversion Eg as [El'].
      assert (Ef : find f l = Some (mkPart (Some (data, mimeType)) t')).
      { apply find_first. exists before, after. rewrite El'.
        split; [reflexivity|]. split; [reflexivity|].
        eapply Forall_impl; [|exact Hb]. intros q Hq. unfold f.
        rewrite Hq. reflexivity. }
      congruence.
  - split; [discriminate|]. intros (? & ? & ? & E & _). discriminate.
  - split; [discriminate|]. intros (? & ? & ? & E & _). discriminate.
  - split; [discriminate|]. intros (? & ? & ? & E & _). discriminate.
Qed.

Lemma startsWith_app (p m : jsstring) : startsWith (p ++ m) p = true.
Proof.
  induction p as [|c p IH]; simpl.
  - destruct m; reflexivity.
  - rewrite N.eqb_refl. exact IH.
Qed.

(** X4. Whatever the remote call does, a rejection of [editImage]
    carries a message that is not empty: the fixed text for a thrown
    value that is no [Error], and otherwise a text that starts with
    ["Failed to edit image: "].  A response without inline data is
    rejected with the text for a missing image. *)
Theorem editImage_rejection_message
    (generateContent : list RequestPart -> Generated)
    (baseImage : option jsstring * jsstring) (prompt : jsstring)
    (contextImage : option (option jsstring * jsstring))
    (message : jsstring) :
  GeminiService.editImage generateContent baseImage prompt contextImage
  = inr message ->
  truthy message = true
  /\ (startsWith message (str "Failed to edit image: ") = true
      \/ message = str "An unknown error occurred while editing the image.")
  /\ (forall ps,
        generateContent (GeminiService.parts baseImage prompt contextImage)
        = Responded ps ->
        message
        = str "Failed to edit image: API response did not contain an image.").
Proof.
  unfold GeminiService.editImage.
  destruct (generateContent _) as [ps|m|].
  - destruct (match ps with Some l => find _ l | None => None end)
      as [[[[d m]|] t]|]; try discriminate;
      intros H; injection H as <-;
      (split; [reflexivity|]); (split; [left; reflexivity|]);
      intros; reflexivity.
  - intros H. injection H as <-.
    split; [reflexivity|].
    split; [left; exact (startsWith_app (str "Failed to edit image: ") m)|].
    discriminate.
  - intros H. injection H as <-.
    split; [reflexivity|]. split; [right; reflexivity|]. discriminate.
Qed.

Lemma editImage_rejection_message_witness :
  let generateContent := fun _ : list RequestPart =>
    Responded (Some [mkPart None (Some (str "I cannot do that."))]) in
  GeminiService.editImage generateContent (Some (str "QUJD"), str "image/png")
    (str "make it blue") None
  = inr (str "Failed to edit image: API response did not contain an image.")
  /\ truthy (str "Failed to edit image: API response did not contain an image.")
     = true.
Proof.
  intros generateContent.
  assert (H : GeminiService.editImage generateContent
                (Some (str "QUJD"), str "image/png") (str "make it blue") None
              = inr (str "Failed to edit image: API response did not contain an image."))
    by reflexivity.
  destruct (editImage_rejection_message generateContent _ _ _ _ H) as (Ht & _).
  split; [exact H|exact Ht].
Defined.

(** ** Moving the cursor *)

Lemma setHistoryIndex_same (a : AppState) : setHistoryIndex (historyIndex a) a = a.
Proof. destruct a; reflexivity. Qed.

(** X6. With the cursor inside the stack, an undo that is possible is
    taken back by a redo, and a redo that is possible by an undo: the
    whole state is as before. *)
Theorem undo_redo_round_trip (a : AppState) :
  cursorInRange (historyStack a) (historyIndex a) ->
  (canUndo a = true -> handleRedo (handleUndo a) = a)
  /\ (canRedo a = true -> handleUndo (handleRedo a) = a).
Proof.
  intros [H0 H1]. unfold canUndo, canRedo, handleUndo, handleRedo. split.
  - intros U. rewrite U. cbn [setHistoryIndex historyIndex historyStack].
    rewrite (proj2 (Z.ltb_lt _ _)) by lia.
    replace (historyIndex a - 1 + 1) with (historyIndex a) by lia.
    destruct a; reflexivity.
  - intros R. rewrite R. cbn [setHistoryIndex historyIndex historyStack].
    rewrite (proj2 (Z.ltb_lt _ _)) by lia.
    replace (historyIndex a + 1 - 1) with (historyIndex a) by lia.
    destruct a; reflexivity.
Qed.

Lemma undo_redo_round_trip_witness :
  let A := ImageState.mk thumbDataUrl (str "image/png") in
  let B := editedImage (str "WFla") (str "image/png") in
  let a := mkApp [] [A; B] 1 None [] false None in
  cursorInRange (historyStack a) (historyIndex a)
  /\ canUndo a = true
  /\ historyIndex (handleUndo a) = 0
  /\ handleRedo (handleUndo a) = a.
Proof.
  intros A B a.
  assert (H : cursorInRange (historyStack a) (historyIndex a)).
  { unfold cursorInRange. simpl. lia. }
  destruct (undo_redo_round_trip a H) as [Hu _].
  split; [exact H|]. split; [reflexivity|]. split; [reflexivity|].
  exact (Hu eq_refl).
Defined.

(** X7. From a cursor inside the stack, [k] undos in a row leave the
    cursor at [max 0 (cursor - k)] and [k] redos at
    [min (length - 1) (cursor + k)]; nothing else changes, and the
    cursor never leaves the stack. *)
Theorem repeated_undo_redo_clamp (a : AppState) (k : nat) :
  cursorInRange (historyStack a) (historyIndex a) ->
  Nat.iter k handleUndo a
  = setHistoryIndex (Z.max 0 (historyIndex a - Z.of_nat k)) a
  /\ Nat.iter k handleRedo a
     = setHistoryIndex (Z.min (Z.of_nat (length (historyStack a)) - 1)
                              (historyIndex a + Z.of_nat k)) a.
Proof.
  intros [H0 H1]. split.
  - induction k as [|k IH].
    + simpl. rewrite Z.sub_0_r, Z.max_r by lia.
      symmetry. apply setHistoryIndex_same.
    + change (Nat.iter (S k) handleUndo a)
        with (handleUndo (Nat.iter k handleUndo a)).
      rewrite IH. unfold handleUndo.
      cbn [setHistoryIndex historyIndex].
      destruct (0 <? Z.max 0 (historyIndex a - Z.of_nat k)) eqn:E.
      * apply Z.ltb_lt in E. unfold setHistoryIndex. simpl. f_equal. lia.
      * apply Z.ltb_ge in E. unfold setHistoryIndex. f_equal. lia.
  - induction k as [|k IH].
    + simpl. rewrite Z.add_0_r, Z.min_r by lia.
      symmetry. apply setHistoryIndex_same.
    + change (Nat.iter (S k) handleRedo a)
        with (handleRedo (Nat.iter k handleRedo a)).
      rewrite IH. unfold handleRedo.
      cbn [setHistoryIndex historyIndex historyStack].
      destruct (Z.min (Z.of_nat (length (historyStack a)) - 1)
                      (historyIndex a + Z.of_nat k)
                <? Z.of_nat (length (historyStack a)) - 1) eqn:E.
      * apply Z.ltb_lt in E. unfold setHistoryIndex. simpl. f_equal. lia.
      * apply Z.ltb_ge in E. unfold setHistoryIndex. f_equal. lia.
Qed.

Lemma repeated_undo_redo_clamp_witness :
  let A := ImageState.mk thumbDataUrl (str "image/png") in
  let B := editedImage (str "WFla") (str "image/png") in
  let C := editedImage (str "WVla") (str "image/png") in
  let a := mkApp [] [A; B; C] 1 None [] false None in
  cursorInRange (historyStack a) (historyIndex a)
  /\ historyIndex (Nat.iter 5 handleUndo a) = 0
  /\ historyIndex (Nat.iter 5 handleRedo a) = 2.
Proof.
  intros A B C a.
  assert (H : cursorInRange (historyStack a) (historyIndex a)).
  { unfold cursorInRange. simpl. lia. }
  destruct (repeated_undo_redo_clamp a 5 H) as [Hu Hr].
  split; [exact H|]. split; [rewrite Hu|rewrite Hr]; reflexivity.
Defined.

(** ** Download *)

(** X8. Before the first upload has completed [downloadImage] does
    nothing; from then on, after any sequence of events, it offers a
    download whose link is the URL of the current version. *)
Theorem download_offers_current_version (es : list Event) (now : Z) :
  let a := app (run initialWorld es) in
  (uploadsCompleted initialWorld es = 0%nat -> downloadImage now a = None)
  /\ (uploadsCompleted initialWorld es <> 0%nat ->
      exists img name,
        current a = Some img
        /\ downloadImage now a = Some (ImageState.imageUrl img, name)).
Proof.
  intros a.
  pose proof (run_empty_iff es _ initialWorld_ok) as He. fold a in He.
  destruct (run_ok es _ initialWorld_ok) as [Hh _]. fold a in Hh. split.
  - intros U. unfold downloadImage.
    rewrite (proj2 He (conj eq_refl U)). rewrite index_nil. reflexivity.
  - intros U. destruct Hh as [[E _]|Hr].
    + exfalso. apply U. apply He. exact E.
    + destruct (index_in_range _ _ Hr) as [img Hi].
      exists img. unfold downloadImage, current. rewrite Hi. eauto.
Qed.

(** X9. The file name of a download is ["thumbnail-"], the clock
    reading, a dot and an extension that is never empty and has no
    slash: the text after the slash of the mime type when there is
    one, ["png"] when the mime type has no slash. *)
Theorem download_name_has_extension (now : Z) (a : AppState)
    (href name : jsstring) :
  downloadImage now a = Some (href, name) ->
  exists img extension,
    current a = Some img
    /\ href = ImageState.imageUrl img
    /\ name = str "thumbnail-" ++ decimal now ++ str "." ++ extension
    /\ extension <> []
    /\ ~ In 47%N extension
    /\ (forall x, ImageState.mimeType img = str "image/" ++ x ->
                  x <> [] -> ~ In 47%N x -> extension = x)
    /\ (~ In 47%N (ImageState.mimeType img) -> extension = str "png").
Proof.
  unfold downloadImage, current.
  destruct (index (historyStack a) (historyIndex a)) as [img|]; [|discriminate].
  assert (Hpng : str "png" <> [] /\ ~ In 47%N (str "png"))
    by (split; [discriminate|vm_compute; intuition discriminate]).
  destruct (nth_error (split 47%N (ImageState.mimeType img)) 1) as [e|] eqn:E;
    intros H; injection H as <- <-; exists img.
  - assert (Hclean : ~ In 47%N e).
    { pose proof (split_pieces_clean 47%N (ImageState.mimeType img)) as Hall.
      rewrite Forall_forall in Hall. apply Hall.
      eapply nth_error_In. exact E. }
    exists (if truthy e then e else str "png").
    split; [reflexivity|]. split; [reflexivity|]. split; [reflexivity|].
    split; [destruct e; simpl; [apply Hpng|discriminate]|].
    split; [destruct e; simpl; [apply Hpng|exact Hclean]|].
    split.
    + intros x Hx Hne Hnx. rewrite Hx in E.
      change (str "image/" ++ x) with (str "image" ++ 47%N :: x) in E.
      rewrite split_at_first_sep in E
        by (vm_compute; intuition discriminate).
      rewrite (split_without_sep _ _ Hnx) in E. injection E as <-.
      destruct x; [contradiction|reflexivity].
    + intros Hn. rewrite (split_without_sep _ _ Hn) in E. discriminate.
  - exists (str "png").
    split; [reflexivity|]. split; [reflexivity|]. split; [reflexivity|].
    split; [apply Hpng|]. split; [apply Hpng|]. split.
    + intros x Hx Hne Hnx. rewrite Hx in E.
      change (str "image/" ++ x) with (str "image" ++ 47%N :: x) in E.
      rewrite split_at_first_sep in E
        by (vm_compute; intuition discriminate).
      rewrite (split_without_sep _ _ Hnx) in E. discriminate.
    + reflexivity.
Qed.

Lemma download_name_has_extension_witness :
  downloadImage 5000 (app uploaded)
  = Some (thumbDataUrl, str "thumbnail-5000.png")
  /\ exists img extension,
       current (app uploaded) = Some img
       /\ str "thumbnail-5000.png"
          = str "thumbnail-" ++ decimal 5000 ++ str "." ++ extension
       /\ extension <> [].
Proof.
  assert (H : downloadImage 5000 (app uploaded)
              = Some (thumbDataUrl, str "thumbnail-5000.png")) by reflexivity.
  destruct (download_name_has_extension 5000 (app uploaded) _ _ H)
    as (img & extension & Hc & _ & Hn & He & _).
  split; [exact H|]. exists img, extension. auto.
Defined.

(** ** What holds in every state a session can reach *)

Lemma snoc_not_nil {A : Type} (l : list A) (x : A) : l ++ [x] <> [].
Proof. destruct l; discriminate. Qed.

Lemma step_loading_has_task (w : World) (e : Event) :
  (isLoading (app w) = true -> pending w <> []) ->
  isLoading (app (step w e)) = true -> pending (step w e) <> [].
Proof.
  intros Hw.
  destruct e as [file|file u|v|now| | | |i r now]; cbn [step].
  - unfold handleInitialImageUpload. destruct file as [f|]; [|exact Hw].
    destruct (negb _); [exact Hw|]. intros _. apply snoc_not_nil.
  - unfold handleContextImageSelect. destruct file as [f|]; [|exact Hw].
    destruct (negb _); exact Hw.
  - exact Hw.
  - unfold handleEdit.
    destruct (index _ _); [|exact Hw].
    destruct (negb _); [exact Hw|].
    destruct (isLoading (app w)); [intros _; apply Hw; reflexivity|].
    destruct (contextImage (app w)); intros _; apply snoc_not_nil.
  - unfold handleUndo. cbn [app withApp pending].
    destruct (0 <? _); exact Hw.
  - unfold handleRedo. cbn [app withApp pending].
    destruct (_ <? _); exact Hw.
  - unfold discardContextImage. destruct (contextImage (app w)); exact Hw.
  - unfold settle.
    destruct (nth_error (pending w) i) as [[f|fr|fr]|];
      destruct r as [d| |b m|msg]; try exact Hw;
      try (intros H; discriminate H).
    + unfold contextReadResumed.
      destruct (contextImage (rendered fr)); intros _; apply snoc_not_nil.
    + unfold contextReadResumed, editFinally.
      destruct (contextImage (rendered fr)); intros H; discriminate H.
    + unfold editImageResumed, editFinally.
      destruct (contextImage (rendered fr)); intros H; discriminate H.
    + unfold editImageResumed, editFinally.
      destruct (contextImage (rendered fr)); intros H; discriminate H.
Qed.

(** X10. After any sequence of events, if no handler is suspended then
    [isLoading] is false: the controls are never left locked with
    nothing under way. *)
Theorem idle_session_is_unlocked (es : list Event) :
  pending (run initialWorld es) = [] ->
  isLoading (app (run initialWorld es)) = false.
Proof.
  assert (H : forall w, (isLoading (app w) = true -> pending w <> []) ->
                        isLoading (app (run w es)) = true ->
                        pending (run w es) <> []).
  { induction es as [|e es IH]; intros w Hw; [exact Hw|].
    rewrite run_cons. apply IH. apply step_loading_has_task. exact Hw. }
  intros Hp. destruct (isLoading (app (run initialWorld es))) eqn:E;
    [|reflexivity].
  exfalso. apply (H initialWorld); [discriminate|exact E|exact Hp].
Qed.

Lemma idle_session_is_unlocked_witness :
  pending (run initialWorld attachThenUpload) = []
  /\ isLoading (app (run initialWorld attachThenUpload)) = false.
Proof.
  assert (H : pending (run initialWorld attachThenUpload) = []) by reflexivity.
  split; [exact H|]. exact (idle_session_is_unlocked attachThenUpload H).
Defined.

Lemma In_dropped {A : Type} (i : nat) (l : list A) (x : A) :
  In x (firstn i l ++ skipn (S i) l) -> In x l.
Proof.
  revert i. induction l as [|a l IH]; intros i H.
  - destruct i; simpl in H; contradiction.
  - destruct i as [|i]; simpl in H.
    + right. exact H.
    + destruct H as [H|H]; [left; exact H|right; exact (IH i H)].
Qed.

(** How [urlsKnown] carries over from a world to the next. *)
Lemma urlsKnown_step (w w' : World) :
  urlsKnown w ->
  incl (objectURLs w) (objectURLs w') ->
  (forall u, contextUrl (app w') = Some u ->
     contextUrl (app w) = Some u \/ In u (objectURLs w')) ->
  (forall t fr, In t (pending w') -> frameOf t = Some fr ->
     (exists t0, In t0 (pending w) /\ frameOf t0 = Some fr)
     \/ rendered fr = app w) ->
  (forall u, In u (revoked w') ->
     In u (revoked w) \/ contextUrl (app w) = Some u
     \/ exists t0 fr, In t0 (pending w) /\ frameOf t0 = Some fr
                      /\ contextUrl (rendered fr) = Some u) ->
  urlsKnown w'.
Proof.
  intros (Kc & Kf & Kr) Hincl Hc Hf Hr. split; [|split].
  - intros u Hu. destruct (Hc u Hu) as [H|H]; [apply Hincl, Kc, H|exact H].
  - intros t fr u Ht Hfr Hu. apply Hincl.
    destruct (Hf t fr Ht Hfr) as [(t0 & Ht0 & Hfr0)|E].
    + exact (Kf t0 fr u Ht0 Hfr0 Hu).
    + rewrite E in Hu. exact (Kc u Hu).
  - intros u Hu. apply Hincl.
    destruct (Hr u Hu) as [H|[H|(t0 & fr & Ht0 & Hfr0 & H)]].
    + exact (Kr u H).
    + exact (Kc u H).
    + exact (Kf t0 fr u Ht0 Hfr0 H).
Qed.

Lemma urlsKnown_same (w w' : World) :
  contextUrl (app w') = contextUrl (app w) -> pending w' = pending w ->
  objectURLs w' = objectURLs w -> revoked w' = revoked w ->
  urlsKnown w -> urlsKnown w'.
Proof.
  intros Ec Ep Eo Er K. apply (urlsKnown_step w w' K).
  - rewrite Eo. apply incl_refl.
  - intros u Hu. left. rewrite <- Ec. exact Hu.
  - intros t fr Ht Hfr. left. exists t. rewrite <- Ep. auto.
  - intros u Hu. left. rewrite <- Er. exact Hu.
Qed.

(** The [finally] of [handleEdit] in a world where the handler's task
    [t0] was suspended. *)
Lemma urlsKnown_finally (w w1 : World) (i : nat) (t0 : Task) (fr : EditFrame) :
  urlsKnown w ->
  nth_error (pending w) i = Some t0 -> frameOf t0 = Some fr ->
  pending w1 = pending (dropTask i w) ->
  objectURLs w1 = objectURLs w -> revoked w1 = revoked w ->
  urlsKnown (editFinally fr w1).
Proof.
  intros K Hn Hfr Ep Eo Er. apply (urlsKnown_step w _ K).
  - unfold editFinally. destruct (contextImage (rendered fr)); simpl;
      rewrite Eo; apply incl_refl.
  - unfold editFinally. destruct (contextImage (rendered fr)); simpl;
      discriminate.
  - intros t fr' Ht Hfr'. left. exists t. split; [|exact Hfr'].
    assert (Hp : In t (pending w1)).
    { revert Ht. unfold editFinally.
      destruct (contextImage (rendered fr)); simpl; auto. }
    rewrite Ep in Hp. exact (In_dropped _ _ _ Hp).
  - intros u Hu. unfold editFinally in Hu.
    destruct (contextImage (rendered fr)) as [ci|] eqn:Ec; simpl in Hu.
    + rewrite Er in Hu. apply in_app_or in Hu. destruct Hu as [Hu|[Hu|[]]].
      * left. exact Hu.
      * right; right. exists t0, fr. split; [eapply nth_error_In; exact Hn|].
        split; [exact Hfr|]. unfold contextUrl. rewrite Ec, <- Hu. reflexivity.
    + left. rewrite <- Er. exact Hu.
Qed.

Lemma step_urlsKnown (w : World) (e : Event) : urlsKnown w -> urlsKnown (step w e).
Proof.
  intros K.
  destruct e as [file|file u|v|now| | | |i r now]; cbn [step].
  - unfold handleInitialImageUpload. destruct file as [f|]; [|exact K].
    destruct (negb _); [apply (urlsKnown_same w); auto|].
    apply (urlsKnown_step w _ K); simpl.
    + apply incl_refl.
    + auto.
    + intros t fr Ht Hfr. apply in_app_or in Ht. destruct Ht as [Ht|[<-|[]]].
      * left. eauto.
      * discriminate.
    + auto.
  - unfold handleContextImageSelect. destruct file as [f|]; [|exact K].
    destruct (negb _); [apply (urlsKnown_same w); auto|].
    apply (urlsKnown_step w _ K); simpl.
    + apply incl_appl, incl_refl.
    + intros u' Hu. right. apply in_or_app. right. left.
      unfold contextUrl in Hu. simpl in Hu. congruence.
    + intros t fr Ht Hfr. left. eauto.
    + auto.
  - apply (urlsKnown_same w); auto.
  - unfold handleEdit.
    destruct (index _ _) as [cur|]; [|apply (urlsKnown_same w); auto].
    destruct (negb _); [apply (urlsKnown_same w); auto|].
    destruct (isLoading (app w)); [exact K|].
    apply (urlsKnown_step w _ K).
    + destruct (contextImage (app w)); apply incl_refl.
    + intros u Hu. left. revert Hu. unfold contextUrl.
      destruct (contextImage (app w)) eqn:Ec; simpl; rewrite Ec; auto.
    + intros t fr Ht Hfr.
      assert (Ht' : In t (pending w) \/ frameOf t
                    = Some (mkFrame (app w) cur (userEntry now (app w)))).
      { revert Ht. unfold callEditImage, userEntry.
        destruct (contextImage (app w)); simpl; intros Ht;
          apply in_app_or in Ht; destruct Ht as [Ht|[<-|[]]]; auto. }
      destruct Ht' as [Ht'|Ht']; [left; eauto|].
      right. rewrite Hfr in Ht'. injection Ht' as ->. reflexivity.
    + intros u Hu. left. revert Hu.
      destruct (contextImage (app w)); auto.
  - apply (urlsKnown_same w); auto; unfold handleUndo; cbn [app withApp];
      destruct (0 <? _); reflexivity.
  - apply (urlsKnown_same w); auto; unfold handleRedo; cbn [app withApp];
      destruct (_ <? _); reflexivity.
  - apply (urlsKnown_step w _ K); unfold discardContextImage.
    + destruct (contextImage (app w)); apply incl_refl.
    + destruct (contextImage (app w)); discriminate.
    + intros t fr Ht Hfr. left. exists t. split; [|exact Hfr].
      revert Ht. destruct (contextImage (app w)); auto.
    + intros u Hu. unfold contextUrl.
      destruct (contextImage (app w)) as [ci|]; simpl in Hu; [|auto].
      apply in_app_or in Hu. destruct Hu as [Hu|[<-|[]]]; auto.
  - unfold settle.
    destruct (nth_error (pending w) i) as [t0|] eqn:Hn; [|destruct r; exact K].
    destruct t0 as [f|fr|fr]; destruct r as [d| |b m|msg]; try exact K.
    + apply (urlsKnown_step w _ K); simpl.
      * apply incl_refl.
      * discriminate.
      * intros t fr Ht Hfr. left. exists t. split; [|exact Hfr].
        exact (In_dropped _ _ _ Ht).
      * auto.
    + apply (urlsKnown_step w _ K); simpl.
      * apply incl_refl.
      * auto.
      * intros t fr Ht Hfr. left. exists t. split; [|exact Hfr].
        exact (In_dropped _ _ _ Ht).
      * auto.
    + apply (urlsKnown_step w _ K); unfold contextReadResumed, callEditImage.
      * destruct (contextImage (rendered fr)); apply incl_refl.
      * intros u Hu. left. revert Hu.
        destruct (contextImage (rendered fr)); auto.
      * intros t fr' Ht Hfr'. left.
        assert (Ht' : In t (firstn i (pending w) ++ skipn (S i) (pending w))
                      \/ t = AwaitEditImage fr).
        { revert Ht. destruct (contextImage (rendered fr)); simpl; intros Ht;
            apply in_app_or in Ht; destruct Ht as [Ht|[<-|[]]]; auto. }
        destruct Ht' as [Ht'| ->].
        -- exists t. split; [exact (In_dropped _ _ _ Ht')|exact Hfr'].
        -- exists (AwaitContextRead fr).
           split; [eapply nth_error_In; exact Hn|exact Hfr'].
      * intros u Hu. left. revert Hu.
        destruct (contextImage (rendered fr)); auto.
    + unfold contextReadResumed.
      apply (urlsKnown_finally w _ i (AwaitContextRead fr) fr K Hn);
        reflexivity.
    + unfold editImageResumed.
      apply (urlsKnown_finally w _ i (AwaitEditImage fr) fr K Hn);
        reflexivity.
    + unfold editImageResumed.
      apply (urlsKnown_finally w _ i (AwaitEditImage fr) fr K Hn);
        reflexivity.
Qed.

(** X11. After any sequence of events, every URL handed to
    [URL.revokeObjectURL] is one that [URL.createObjectURL] returned
    earlier, and so is the URL of the pending context image. *)
Theorem only_created_urls_are_revoked (es : list Event) :
  let w := run initialWorld es in
  (forall u, In u (revoked w) -> In u (objectURLs w))
  /\ (forall ci, contextImage (app w) = Some ci ->
        In (ContextImage.url ci) (objectURLs w)).
Proof.
  assert (H : forall w, urlsKnown w -> urlsKnown (run w es)).
  { induction es as [|e es IH]; intros w K; [exact K|].
    rewrite run_cons. apply IH, step_urlsKnown, K. }
  assert (K0 : urlsKnown initialWorld).
  { split; [|split]; simpl; try discriminate; intros; contradiction. }
  destruct (H _ K0) as (Kc & _ & Kr). split; [exact Kr|].
  intros ci Hc. apply Kc. unfold contextUrl. rewrite Hc. reflexivity.
Qed.

(** ** The entries of the transcript *)

Lemma userEntry_ok (now : Z) (a : AppState) : entryOk (userEntry now a).
Proof.
  unfold entryOk, userEntry. simpl.
  split; [exists now; reflexivity|]. split; [discriminate|]. auto.
Qed.

Lemma botMessage_ok (now : Z) (imageUrl mimeType : jsstring) :
  entryOk (botMessage now imageUrl mimeType).
Proof.
  unfold entryOk, botMessage. simpl.
  split; [exists now; reflexivity|]. split; [discriminate|].
  split; [discriminate|]. auto.
Qed.

(** An event leaves the transcript as it is, or filters it, or adds (or
    restarts it with) one entry built by a handler. *)
Lemma step_chat_entries (w : World) (e : Event) :
  chatHistory (app (step w e)) = chatHistory (app w)
  \/ (exists f, chatHistory (app (step w e)) = filter f (chatHistory (app w)))
  \/ (exists msg, entryOk msg
        /\ (chatHistory (app (step w e)) = chatHistory (app w) ++ [msg]
            \/ chatHistory (app (step w e)) = [msg])).
Proof.
  destruct e as [file|file u|v|now| | | |i r now]; cbn [step].
  - left. unfold handleInitialImageUpload. destruct file as [f|]; [|reflexivity].
    destruct (negb _); reflexivity.
  - left. unfold handleContextImageSelect. destruct file as [f|]; [|reflexivity].
    destruct (negb _); reflexivity.
  - left; reflexivity.
  - unfold handleEdit.
    destruct (index _ _); [|left; reflexivity].
    destruct (negb _); [left; reflexivity|].
    destruct (isLoading _); [left; reflexivity|].
    right; right. exists (userEntry now (app w)).
    split; [apply userEntry_ok|]. left. unfold userEntry.
    destruct (contextImage (app w)); reflexivity.
  - left. unfold handleUndo. cbn [app withApp].
    destruct (0 <? _); reflexivity.
  - left. unfold handleRedo. cbn [app withApp].
    destruct (_ <? _); reflexivity.
  - left. unfold discardContextImage. destruct (contextImage _); reflexivity.
  - unfold settle.
    destruct (nth_error (pending w) i) as [[f|fr|fr]|];
      destruct r as [d| |b m|msg]; try (left; reflexivity).
    + right; right. exists (botMessage now d (File.type f)).
      split; [apply botMessage_ok|]. right. reflexivity.
    + left. unfold contextReadResumed.
      destruct (contextImage (rendered fr)); reflexivity.
    + right; left. eexists. unfold contextReadResumed, editFinally, editCatch.
      destruct (contextImage (rendered fr)); reflexivity.
    + right; right.
      exists (botMessage now (str "data:" ++ m ++ str ";base64," ++ b) m).
      split; [apply botMessage_ok|]. left.
      unfold editImageResumed, editFinally.
      destruct (contextImage (rendered fr)); reflexivity.
    + right; left. eexists. unfold editImageResumed, editFinally, editCatch.
      destruct (contextImage (rendered fr)); reflexivity.
Qed.

Lemma run_entries_ok (es : list Event) (w : World) :
  Forall entryOk (chatHistory (app w)) ->
  Forall entryOk (chatHistory (app (run w es))).
Proof.
  revert w. induction es as [|e es IH]; intros w Hw; [exact Hw|].
  rewrite run_cons. apply IH.
  destruct (step_chat_entries w e) as [E|[[f E]|(msg & Hm & [E|E])]];
    rewrite E.
  - exact Hw.
  - apply Forall_filter_kept. exact Hw.
  - apply Forall_app. split; [exact Hw|]. constructor; [exact Hm|constructor].
  - constructor; [exact Hm|constructor].
Qed.

(** X12. After any sequence of events every entry of the transcript is
    one of the two kinds the handlers build: a user entry with a prompt,
    no image and an id made from ["user-"] and a clock reading, or a bot
    entry with an image and its mime type, no prompt, no context image
    and an id made from ["bot-"] and a clock reading. *)
Theorem transcript_entries_well_formed (es : list Event) :
  Forall entryOk (chatHistory (app (run initialWorld es))).
Proof. apply run_entries_ok. constructor. Qed.

(** Every frame suspended after an event was suspended before it, or
    is the frame [handleEdit] has just built. *)
Lemma step_frames (w : World) (e : Event) (t : Task) (fr : EditFrame) :
  In t (pending (step w e)) -> frameOf t = Some fr ->
  (exists t0, In t0 (pending w) /\ frameOf t0 = Some fr)
  \/ (exists now cur, fr = mkFrame (app w) cur (userEntry now (app w))).
Proof.
  intros Ht Hfr.
  assert (Hsame : In t (pending w) ->
                  exists t0, In t0 (pending w) /\ frameOf t0 = Some fr)
    by (intros H; exists t; auto).
  destruct e as [file|file u|v|now| | | |i r now]; cbn [step] in Ht.
  - unfold handleInitialImageUpload in Ht. destruct file as [f|]; [|auto].
    destruct (negb _); [auto|]. simpl in Ht.
    apply in_app_or in Ht. destruct Ht as [Ht|[<-|[]]]; [auto|discriminate].
  - unfold handleContextImageSelect in Ht. destruct file as [f|]; [|auto].
    destruct (negb _); auto.
  - auto.
  - unfold handleEdit in Ht.
    destruct (index _ _) as [cur|]; [|auto].
    destruct (negb _); [auto|].
    destruct (isLoading (app w)); [auto|].
    assert (Ht' : In t (pending w)
                  \/ frameOf t = Some (mkFrame (app w) cur (userEntry now (app w)))).
    { revert Ht. unfold callEditImage, userEntry.
      destruct (contextImage (app w)); simpl; intros Ht;
        apply in_app_or in Ht; destruct Ht as [Ht|[<-|[]]]; auto. }
    destruct Ht' as [Ht'|Ht']; [auto|].
    right. exists now, cur. congruence.
  - left. apply Hsame. exact Ht.
  - left. apply Hsame. exact Ht.
  - left. apply Hsame. revert Ht. unfold discardContextImage.
    destruct (contextImage (app w)); auto.
  - unfold settle in Ht.
    destruct (nth_error (pending w) i) as [t0|] eqn:Hn; [|destruct r; auto].
    assert (Hd : In t (pending (dropTask i w)) ->
                 exists t1, In t1 (pending w) /\ frameOf t1 = Some fr)
      by (intros H; apply Hsame; exact (In_dropped _ _ _ H)).
    destruct t0 as [f|fr0|fr0]; destruct r as [d| |b m|msg]; auto.
    + unfold contextReadResumed, callEditImage in Ht.
      assert (Ht' : In t (pending (dropTask i w)) \/ t = AwaitEditImage fr0).
      { revert Ht. destruct (contextImage (rendered fr0)); simpl; intros Ht;
          apply in_app_or in Ht; destruct Ht as [Ht|[<-|[]]]; auto. }
      destruct Ht' as [Ht'| ->]; [auto|].
      left. exists (AwaitContextRead fr0).
      split; [eapply nth_error_In; exact Hn|exact Hfr].
    + left. apply Hd. revert Ht. unfold contextReadResumed, editFinally.
      destruct (contextImage (rendered fr0)); auto.
    + left. apply Hd. revert Ht. unfold editImageResumed, editFinally.
      destruct (contextImage (rendered fr0)); auto.
    + left. apply Hd. revert Ht. unfold editImageResumed, editFinally.
      destruct (contextImage (rendered fr0)); auto.
Qed.

Lemma run_frames_hold_user_entries (es : list Event) (w : World) :
  framesHoldUserEntries w -> framesHoldUserEntries (run w es).
Proof.
  revert w. induction es as [|e es IH]; intros w Hw; [exact Hw|].
  rewrite run_cons. apply IH. intros t fr Ht Hfr.
  destruct (step_frames w e t fr Ht Hfr) as [(t0 & Ht0 & Hfr0)|(now & cur & ->)].
  - exact (Hw t0 fr Ht0 Hfr0).
  - split; [apply userEntry_ok|reflexivity].
Qed.

(** A rollback filters by the id of a user entry, which no bot entry
    carries. *)
Lemma rollback_keeps_bots (l : list ChatMessage.t) (u : ChatMessage.t) :
  Forall entryOk l -> entryOk u -> ChatMessage.type u = user ->
  filter isBot
    (filter (fun msg => negb (jsstring_eqb (ChatMessage.id msg) (ChatMessage.id u))) l)
  = filter isBot l.
Proof.
  intros Hl Hu Tu. unfold entryOk in Hu. rewrite Tu in Hu.
  destruct Hu as ((t & Hid) & _).
  induction Hl as [|m l Hm _ IH]; simpl; [reflexivity|].
  destruct (jsstring_eqb (ChatMessage.id m) (ChatMessage.id u)) eqn:E; simpl.
  - apply jsstring_eqb_eq in E. unfold isBot at 2. unfold entryOk in Hm.
    destruct (ChatMessage.type m); [exact IH|].
    destruct Hm as ((t' & Hid') & _). rewrite Hid, Hid' in E. discriminate.
  - rewrite IH. reflexivity.
Qed.

(** X13. In any state a session can reach, a rejected [editImage] call
    or an unreadable file removes no bot entry from the transcript and
    adds none: the bot entries are the same, in the same order. *)
Theorem rejection_keeps_bot_entries (es : list Event) (i : nat) (r : Settled)
    (now : Z) :
  r = FileFailed \/ (exists message, r = EditRejected message) ->
  let w := run initialWorld es in
  filter isBot (chatHistory (app (step w (Settle i r now))))
  = filter isBot (chatHistory (app w)).
Proof.
  intros Hr w.
  assert (Hchat : Forall entryOk (chatHistory (app w)))
    by (apply run_entries_ok; constructor).
  assert (Hfr : framesHoldUserEntries w).
  { apply run_frames_hold_user_entries. intros t fr []. }
  cbn [step]. unfold settle.
  destruct (nth_error (pending w) i) as [t0|] eqn:Hn;
    [|destruct Hr as [->|[msg ->]]; reflexivity].
  pose proof (nth_error_In _ _ Hn) as Hin.
  destruct t0 as [f|fr|fr]; destruct Hr as [->|[msg ->]]; try reflexivity.
  - destruct (Hfr _ fr Hin eq_refl) as [Ho Tu].
    unfold contextReadResumed, editFinally, editCatch.
    destruct (contextImage (rendered fr)); simpl;
      apply rollback_keeps_bots; assumption.
  - destruct (Hfr _ fr Hin eq_refl) as [Ho Tu].
    unfold editImageResumed, editFinally, editCatch.
    destruct (contextImage (rendered fr)); simpl;
      apply rollback_keeps_bots; assumption.
Qed.

Lemma rejection_keeps_bot_entries_witness :
  let es := [InitialImageUpload (Some thumbPng);
             Settle 0 (FileLoaded thumbDataUrl) 1000;
             PromptChange (str "make it blue"); Edit 2000] in
  (EditRejected (str "Failed to edit image: quota") = FileFailed
   \/ exists message,
        EditRejected (str "Failed to edit image: quota") = EditRejected message)
  /\ map ChatMessage.id (chatHistory (app (run initialWorld es)))
     = [str "bot-1000"; str "user-2000"]
  /\ map ChatMessage.id
       (filter isBot
          (chatHistory
             (app (step (run initialWorld es)
                        (Settle 0 (EditRejected (str "Failed to edit image: quota"))
                                3000)))))
     = [str "bot-1000"].
Proof.
  intros es.
  assert (H : EditRejected (str "Failed to edit image: quota") = FileFailed
              \/ exists message,
                   EditRejected (str "Failed to edit image: quota")
                   = EditRejected message)
    by (right; eexists; reflexivity).
  pose proof (rejection_keeps_bot_entries es 0 _ 3000 H) as E.
  cbv zeta in E. split; [exact H|]. split; [reflexivity|].
  rewrite E. reflexivity.
Defined.

(** ** Ids as React keys *)

Lemma NoDup_map_filter {A B : Type} (g : A -> B) (f : A -> bool) (l : list A) :
  NoDup (map g l) -> NoDup (map g (filter f l)).
Proof.
  induction l as [|x l IH]; simpl; intros H; [constructor|].
  inversion H as [|? ? Hx Hl]; subst.
  destruct (f x); simpl; [|exact (IH Hl)].
  constructor; [|exact (IH Hl)].
  intros Hin. apply Hx. apply in_map_iff in Hin.
  destruct Hin as (y & Hy & Hin). apply filter_In in Hin.
  rewrite <- Hy. apply in_map. apply Hin.
Qed.

(** An id built from a reading at or after [c] is carried by no entry
    whose id was built from a reading below [c]. *)
Lemma later_stamp_is_fresh (l : list ChatMessage.t) (c now : Z) (i : jsstring) :
  Forall (stampedBelow c) l -> c <= now ->
  i = str "user-" ++ decimal now \/ i = str "bot-" ++ decimal now ->
  ~ In i (map ChatMessage.id l).
Proof.
  intros Hl Hc Hi Hin. apply in_map_iff in Hin. destruct Hin as (m & Hm & Hin).
  rewrite Forall_forall in Hl. destruct (Hl m Hin) as (t & Ht & Hid).
  destruct Hi as [->| ->]; destruct Hid as [E|E]; rewrite E in Hm;
    simpl in Hm; try discriminate;
    injection Hm as Hm; apply decimal_inj in Hm; lia.
Qed.

Lemma run_ids_distinct (es : list Event) (w : World) (c : Z) :
  Forall (stampedBelow c) (chatHistory (app w)) ->
  NoDup (map ChatMessage.id (chatHistory (app w))) ->
  clockAdvances c es ->
  NoDup (map ChatMessage.id (chatHistory (app (run w es)))).
Proof.
  revert w c. induction es as [|e es IH]; intros w c Hs Hn Hc; [exact Hn|].
  rewrite run_cons. cbn [clockAdvances] in Hc.
  assert (Hstep : NoDup (map ChatMessage.id (chatHistory (app (step w e))))).
  { destruct (step_chat_cases w e) as [E|[[f E]|(now & msg & Hst & Hid & E)]].
    - rewrite E. exact Hn.
    - rewrite E. apply NoDup_map_filter. exact Hn.
    - rewrite Hst in Hc. destruct Hc as [Hle _].
      destruct E as [E|E]; rewrite E.
      + rewrite map_app. simpl. apply NoDup_app; [exact Hn| |].
        * constructor; [simpl; tauto|constructor].
        * intros a Ha [<-|[]]. revert Ha.
          apply (later_stamp_is_fresh _ c now); assumption.
      + simpl. constructor; [simpl; tauto|constructor]. }
  destruct (stampOf e) as [now|] eqn:Hst.
  - destruct Hc as [Hle Hc].
    apply (IH _ (now + 1)); [|exact Hstep|exact Hc].
    pose proof (run_stamped [e] w c Hs) as H1. cbn [clockAdvances clockAfter] in H1.
    rewrite Hst in H1. apply H1. split; [exact Hle|exact I].
  - apply (IH _ c); [|exact Hstep|exact Hc].
    pose proof (run_stamped [e] w c Hs) as H1. cbn [clockAdvances clockAfter] in H1.
    rewrite Hst in H1. apply H1. exact I.
Qed.

(** X20. In a session whose clock readings increase from one reading
    to the next, the ids of the transcript entries, which the list
    rendering uses as keys, are pairwise different. *)
Theorem transcript_ids_distinct (es : list Event) (c : Z) :
  clockAdvances c es ->
  NoDup (map ChatMessage.id (chatHistory (app (run initialWorld es)))).
Proof.
  intros Hc. apply (run_ids_distinct es initialWorld c); [| |exact Hc];
    constructor.
Qed.

Lemma transcript_ids_distinct_witness :
  let es := [InitialImageUpload (Some thumbPng);
             Settle 0 (FileLoaded thumbDataUrl) 1000;
             PromptChange (str "make it blue"); Edit 2000;
             Settle 0 (EditResolved (str "WFla") (str "image/png")) 3000] in
  clockAdvances 0 es
  /\ map ChatMessage.id (chatHistory (app (run initialWorld es)))
     = [str "bot-1000"; str "user-2000"; str "bot-3000"]
  /\ NoDup (map ChatMessage.id (chatHistory (app (run initialWorld es)))).
Proof.
  intros es.
  assert (H : clockAdvances 0 es) by (simpl; lia).
  split; [exact H|]. split; [reflexivity|].
  exact (transcript_ids_distinct es 0 H).
Defined.

(** ** Undo and redo while a submission is under way *)

Lemma withApp_setHistoryIndex_same (w : World) :
  withApp (setHistoryIndex (historyIndex (app w))) w = w.
Proof. destruct w as [a p u r c]. destruct a. reflexivity. Qed.

(** Undo and redo clicks change the cursor and nothing else. *)
Lemma run_undo_redo (mid : list Event) (w : World) :
  Forall (fun e => undoOrRedo e = true) mid ->
  exists j, run w mid = withApp (setHistoryIndex j) w.
Proof.
  intros H. revert w. induction H as [|e mid He _ IH]; intros w.
  - exists (historyIndex (app w)). symmetry. apply withApp_setHistoryIndex_same.
  - rewrite run_cons.
    assert (Hs : exists j0, step w e = withApp (setHistoryIndex j0) w).
    { destruct e; try discriminate; cbn [step]; unfold withApp.
      - exists (if 0 <? historyIndex (app w)
                then historyIndex (app w) - 1 else historyIndex (app w)).
        f_equal. unfold handleUndo. destruct (0 <? historyIndex (app w));
          [reflexivity|symmetry; apply setHistoryIndex_same].
      - exists (if historyIndex (app w)
                   <? Z.of_nat (length (historyStack (app w))) - 1
                then historyIndex (app w) + 1 else historyIndex (app w)).
        f_equal. unfold handleRedo.
        destruct (historyIndex (app w)
                  <? Z.of_nat (length (historyStack (app w))) - 1);
          [reflexivity|symmetry; apply setHistoryIndex_same]. }
    destruct Hs as [j0 ->]. destruct (IH (withApp (setHistoryIndex j0) w)) as [j ->].
    exists j. reflexivity.
Qed.

Lemma settle_contextRead_shifted (w : World) (i : nat) (fr : EditFrame)
    (d : jsstring) (now j : Z) :
  nth_error (pending w) i = Some (AwaitContextRead fr) ->
  settle i (FileLoaded d) now (withApp (setHistoryIndex j) w)
  = withApp (setHistoryIndex j) (settle i (FileLoaded d) now w).
Proof.
  intros H. unfold settle. cbn [withApp pending]. rewrite H.
  unfold contextReadResumed. destruct (contextImage (rendered fr)); reflexivity.
Qed.

(** A resolved edit overwrites the cursor: where the clicks had left it
    does not matter. *)
Lemma settle_editResolved_shifted (w : World) (i : nat) (fr : EditFrame)
    (b m : jsstring) (now j : Z) :
  nth_error (pending w) i = Some (AwaitEditImage fr) ->
  settle i (EditResolved b m) now (withApp (setHistoryIndex j) w)
  = settle i (EditResolved b m) now w.
Proof.
  intros H. unfold settle. cbn [withApp pending]. rewrite H.
  unfold editImageResumed, editFinally.
  destruct (contextImage (rendered fr)); reflexivity.
Qed.

Lemma run_app (w : World) (es1 es2 : list Event) :
  run w (es1 ++ es2) = run (run w es1) es2.
Proof. unfold run. apply fold_left_app. Qed.

(** X14. Undo and redo clicks made while a submission is under way do
    not change what a resolved [editImage] call leaves behind: the whole
    state is the one reached without the clicks.  The new version is
    appended after the version that was current when the prompt was
    submitted, and becomes the current one. *)
Theorem undo_redo_in_flight_overridden
    (w : World) (now now' : Z) (mid1 mid2 : list Event) (d b m : jsstring) :
  canSubmit (app w) ->
  Forall (fun e => undoOrRedo e = true) mid1 ->
  Forall (fun e => undoOrRedo e = true) mid2 ->
  run w (submissionAmid w now mid1 d mid2 (EditResolved b m) now')
  = run w (submission w now d (EditResolved b m) now').
Proof.
  intros H H1 H2.
  destruct (handleEdit_accepts now w H) as (cur & Hc & He). cbv zeta in He.
  set (fr := mkFrame (app w) cur (userEntry now (app w))) in *.
  set (w1 := withApp _ w) in *.
  unfold submissionAmid, submission.
  destruct (contextImage (app w)) as [ci|] eqn:Ec.
  - rewrite !run_cons. cbn [step]. rewrite He. rewrite run_app.
    destruct (run_undo_redo mid1 (suspend (AwaitContextRead fr) w1) H1) as [j ->].
    change ((Settle (length (pending w)) (FileLoaded d) now :: mid2)
            ++ [Settle (length (pending w)) (EditResolved b m) now'])
      with (Settle (length (pending w)) (FileLoaded d) now
            :: (mid2 ++ [Settle (length (pending w)) (EditResolved b m) now'])).
    rewrite run_cons. cbn [step].
    assert (Hn : nth_error (pending (suspend (AwaitContextRead fr) w1))
                           (length (pending w))
                 = Some (AwaitContextRead fr)) by apply nth_error_snoc.
    rewrite (settle_contextRead_shifted _ _ fr d now j Hn).
    change (length (pending w)) with (length (pending w1)) at 1.
    rewrite (settle_contextRead fr (Some d) now w1).
    unfold contextReadResumed.
    change (contextImage (rendered fr)) with (contextImage (app w)).
    rewrite Ec. unfold callEditImage.
    match goal with
    | |- run (withApp _ (suspend ?t ?w2)) _ = _ =>
        set (w3 := suspend t w2);
        assert (Hn3 : nth_error (pending w3) (length (pending w)) = Some t)
          by apply nth_error_snoc
    end.
    rewrite run_app.
    destruct (run_undo_redo mid2 (withApp (setHistoryIndex j) w3) H2) as [j' ->].
    cbn [run fold_left step].
    change (withApp (setHistoryIndex j') (withApp (setHistoryIndex j) w3))
      with (withApp (setHistoryIndex j') w3).
    rewrite (settle_editResolved_shifted w3 _ fr b m now' j' Hn3).
    cbn [List.app run fold_left step].
    change (settle (length (pending w)) (FileLoaded d) now
                   (suspend (AwaitContextRead fr) w1))
      with (settle (length (pending w1)) (FileLoaded d) now
                   (suspend (AwaitContextRead fr) w1)).
    rewrite (settle_contextRead fr (Some d) now w1).
    unfold contextReadResumed.
    change (contextImage (rendered fr)) with (contextImage (app w)).
    rewrite Ec. reflexivity.
  - rewrite !run_cons. cbn [step]. rewrite He.
    change (mid1 ++ [] ++ [Settle (length (pending w)) (EditResolved b m) now'])
      with (mid1 ++ [Settle (length (pending w)) (EditResolved b m) now']).
    rewrite run_app.
    destruct (run_undo_redo mid1 (callEditImage fr None w1) H1) as [j ->].
    cbn [List.app run fold_left step].
    apply (settle_editResolved_shifted _ _ fr). unfold callEditImage.
    apply nth_error_snoc.
Qed.

Lemma undo_redo_in_flight_overridden_witness :
  let w := step (run prompted (submission prompted 2000 []
                                 (EditResolved (str "WFla") (str "image/png")) 3000))
                (PromptChange (str "add a title")) in
  let amid := submissionAmid w 4000 [Undo; Undo; Redo] [] []
                (EditResolved (str "WVla") (str "image/png")) 5000 in
  canSubmit (app w)
  /\ Forall (fun e => undoOrRedo e = true) [Undo; Undo; Redo]
  /\ historyIndex (app (run w [Edit 4000; Undo; Undo; Redo])) = 1
  /\ historyIndex (app (run w amid)) = 2
  /\ current (app (run w amid))
     = Some (editedImage (str "WVla") (str "image/png")).
Proof.
  intros w amid.
  assert (H : canSubmit (app w)).
  { unfold canSubmit, cursorInRange. vm_compute. intuition congruence. }
  assert (H1 : Forall (fun e => undoOrRedo e = true) [Undo; Undo; Redo])
    by (repeat constructor).
  pose proof (undo_redo_in_flight_overridden w 4000 5000 [Undo; Undo; Redo] []
                [] (str "WVla") (str "image/png") H H1 (Forall_nil _)) as E.
  fold amid in E.
  split; [exact H|]. split; [exact H1|].
  split; [vm_compute; reflexivity|].
  rewrite E. split; vm_compute; reflexivity.
Defined.

(** ** How a submission ends *)

(** X15. However a suspended [handleEdit] ends, in whatever world (its
    [editImage] call resolved, or rejected, or its context file
    unreadable), its [finally] block has run: the prompt is empty, no
    context image is pending, [isLoading] is false, and the handler's
    task is gone. *)
Theorem edit_handler_always_cleans_up (w : World) (i : nat) (fr : EditFrame)
    (r : Settled) (now : Z) :
  (nth_error (pending w) i = Some (AwaitEditImage fr)
   /\ ((exists b m, r = EditResolved b m) \/ exists message, r = EditRejected message))
  \/ (nth_error (pending w) i = Some (AwaitContextRead fr) /\ r = FileFailed) ->
  let w' := step w (Settle i r now) in
  prompt (app w') = []
  /\ contextImage (app w') = None
  /\ isLoading (app w') = false
  /\ pending w' = firstn i (pending w) ++ skipn (S i) (pending w).
Proof.
  intros H w'. unfold w'. cbn [step]. unfold settle.
  destruct H as [[Hn [(b & m & ->)|(msg & ->)]]|[Hn ->]]; rewrite Hn;
    unfold editImageResumed, contextReadResumed, editFinally;
    destruct (contextImage (rendered fr)); repeat split; reflexivity.
Qed.

Lemma edit_handler_always_cleans_up_witness :
  let w := run prompted [ContextImageSelect (Some logoJpg) (str "blob:1");
                         Edit 2000] in
  (exists fr,
     (nth_error (pending w) 0 = Some (AwaitEditImage fr)
      /\ ((exists b m, FileFailed = EditResolved b m)
          \/ exists message, FileFailed = EditRejected message))
     \/ (nth_error (pending w) 0 = Some (AwaitContextRead fr)
         /\ FileFailed = FileFailed))
  /\ prompt (app w) = str "make it blue"
  /\ prompt (app (step w (Settle 0 FileFailed 2500))) = []
  /\ isLoading (app (step w (Settle 0 FileFailed 2500))) = false.
Proof.
  intros w.
  assert (Hex : exists fr, nth_error (pending w) 0 = Some (AwaitContextRead fr))
    by (eexists; reflexivity).
  destruct Hex as [fr E].
  assert (H : (nth_error (pending w) 0 = Some (AwaitEditImage fr)
               /\ ((exists b m, FileFailed = EditResolved b m)
                   \/ exists message, FileFailed = EditRejected message))
              \/ (nth_error (pending w) 0 = Some (AwaitContextRead fr)
                  /\ FileFailed = FileFailed))
    by (right; split; [exact E|reflexivity]).
  destruct (edit_handler_always_cleans_up w 0 fr FileFailed 2500 H)
    as (Hp & _ & Hl & _).
  split; [exists fr; exact H|]. split; [reflexivity|].
  split; [exact Hp|exact Hl].
Defined.






(** ** The submit button and the error banner *)

(** X18. In any state a session can reach, when the submit button is
    not disabled a click gets past all guards of [handleEdit]: the user
    entry is appended, [isLoading] is set, the error text is cleared and
    one handler is suspended.  The message about a missing base image or
    prompt cannot come from the button. *)
Theorem enabled_submit_goes_ahead (es : list Event) (now : Z) :
  let w := run initialWorld es in
  submitDisabled (app w) = false ->
  chatHistory (app (step w (Edit now)))
  = chatHistory (app w) ++ [userEntry now (app w)]
  /\ isLoading (app (step w (Edit now))) = true
  /\ error (app (step w (Edit now))) = None
  /\ length (pending (step w (Edit now))) = S (length (pending w)).
Proof.
  intros w Hd. unfold submitDisabled in Hd.
  apply orb_false_iff in Hd. destruct Hd as [Hd Ht].
  apply orb_false_iff in Hd. destruct Hd as [Hlen Hl].
  apply negb_false_iff in Ht. apply Nat.eqb_neq in Hlen.
  assert (Hs : canSubmit (app w)).
  { split; [|split; [|exact Hl]].
    - destruct (run_ok es _ initialWorld_ok) as [[[E _]|Hr] _]; [|exact Hr].
      fold w in E. rewrite E in Hlen. contradiction.
    - destruct (blank (prompt (app w))) eqn:B; [|reflexivity].
      apply trim_falsy_iff_blank in B. congruence. }
  destruct (handleEdit_accepts now w Hs) as (cur & _ & He). cbv zeta in He.
  cbn [step]. rewrite He. unfold callEditImage.
  destruct (contextImage (app w)); cbn [app pending suspend editImage withApp
    chatHistory isLoading error setChatHistory setError setIsLoading];
    rewrite length_app, Nat.add_comm; repeat split; reflexivity.
Qed.

Lemma enabled_submit_goes_ahead_witness :
  let es := [InitialImageUpload (Some thumbPng);
             Settle 0 (FileLoaded thumbDataUrl) 1000;
             PromptChange (str "make it blue")] in
  submitDisabled (app (run initialWorld es)) = false
  /\ submitDisabled (app (run initialWorld [InitialImageUpload (Some thumbPng)]))
     = true
  /\ map ChatMessage.id
       (chatHistory (app (step (run initialWorld es) (Edit 2000))))
     = [str "bot-1000"; str "user-2000"].
Proof.
  intros es.
  assert (H : submitDisabled (app (run initialWorld es)) = false)
    by reflexivity.
  destruct (enabled_submit_goes_ahead es 2000 H) as (Hc & _).
  split; [exact H|]. split; [reflexivity|]. rewrite Hc. reflexivity.
Defined.

Lemma rejection_message_truthy
    (generateContent : list RequestPart -> Generated)
    (baseImage : option jsstring * jsstring) (prompt : jsstring)
    (contextImage : option (option jsstring * jsstring)) (message : jsstring) :
  GeminiService.editImage generateContent baseImage prompt contextImage
  = inr message ->
  truthy message = true.
Proof.
  unfold GeminiService.editImage. destruct (generateContent _) as [ps|m|].
  - destruct (match ps with Some l => find _ l | None => None end)
      as [[[[d m]|] t]|]; try discriminate; intros H; injection H as <-;
      reflexivity.
  - intros H. injection H as <-. reflexivity.
  - intros H. injection H as <-. reflexivity.
Qed.

(** X19. Whatever the remote call does, when [editImage] rejects, a
    submission ends with the rejection's message as the error text and
    with the error banner rendered: a failed edit is never silent. *)
Theorem failed_edit_shows_banner
    (generateContent : list RequestPart -> Generated)
    (baseImage : option jsstring * jsstring) (sent : jsstring)
    (context : option (option jsstring * jsstring)) (message : jsstring)
    (w : World) (now now' : Z) (d : jsstring) :
  canSubmit (app w) ->
  GeminiService.editImage generateContent baseImage sent context
  = inr message ->
  let w' := run w (submission w now d (EditRejected message) now') in
  error (app w') = Some message
  /\ errorBannerShown (app w') = true
  /\ isLoading (app w') = false.
Proof.
  intros H Hr w'.
  pose proof (rejection_message_truthy _ _ _ _ _ Hr) as Ht.
  destruct (run_submission w now now' d (inr message) H) as (cur & req & _ & E).
  change (editOutcome (inr message)) with (EditRejected message) in E.
  fold w' in E.
  assert (He : error (app w') = Some message /\ isLoading (app w') = false).
  { rewrite E. unfold editImageResumed, editFinally, editCatch.
    cbn [rendered]. destruct (contextImage (app w)); split; reflexivity. }
  destruct He as [He Hl]. split; [exact He|]. split; [|exact Hl].
  unfold errorBannerShown. rewrite He. exact Ht.
Qed.

Lemma failed_edit_shows_banner_witness :
  let generateContent := fun _ : list RequestPart => Responded None in
  let message :=
    str "Failed to edit image: API response did not contain an image." in
  canSubmit (app prompted)
  /\ GeminiService.editImage generateContent
       (dataUrlToBase64 thumbDataUrl, str "image/png") (str "make it blue") None
     = inr message
  /\ errorBannerShown
       (app (run prompted (submission prompted 2000 [] (EditRejected message) 3000)))
     = true.
Proof.
  intros generateContent message.
  assert (H : canSubmit (app prompted)).
  { unfold canSubmit, cursorInRange. vm_compute. intuition congruence. }
  assert (Hr : GeminiService.editImage generateContent
                 (dataUrlToBase64 thumbDataUrl, str "image/png")
                 (str "make it blue") None
               = inr message) by reflexivity.
  destruct (failed_edit_shows_banner generateContent _ _ _ message prompted
              2000 3000 [] H Hr) as (_ & Hb & _).
  split; [exact H|]. split; [exact Hr|exact Hb].
Defined.

(** ** What a submission sends *)

Lemma run_submission_calls (w : World) (now now' : Z) (d : jsstring)
    (r : jsstring * jsstring + jsstring) :
  canSubmit (app w) ->
  exists cur,
    current (app w) = Some cur
    /\ calls (run w (submission w now d (editOutcome r) now'))
       = calls w
         ++ [mkRequest (dataUrlToBase64 (ImageState.imageUrl cur),
                        ImageState.mimeType cur)
                       (prompt (app w))
                       (match contextImage (app w) with
                        | Some ci =>
                            Some (dataUrlToBase64 d, ContextImage.mimeType ci)
                        | None => None
                        end)].
Proof.
  intros H. destruct (handleEdit_accepts now w H) as (cur & Hc & He).
  cbv zeta in He. exists cur. split; [exact Hc|].
  set (fr := mkFrame (app w) cur (userEntry now (app w))) in *.
  set (w1 := withApp _ w) in *.
  unfold submission.
  destruct (contextImage (app w)) as [ci|] eqn:Ec.
  - cbn [List.app run fold_left step]. rewrite He.
    change (length (pending w)) with (length (pending w1)).
    rewrite (settle_contextRead fr (Some d) now w1).
    unfold contextReadResumed.
    change (contextImage (rendered fr)) with (contextImage (app w)).
    rewrite Ec. unfold callEditImage.
    match goal with
    | |- context [settle _ _ _ (suspend _ ?w2)] =>
        change (length (pending w1)) with (length (pending w2));
        unfold editOutcome; rewrite (settle_editImage fr r now' w2)
    end.
    unfold editImageResumed, editFinally.
    change (contextImage (rendered fr)) with (contextImage (app w)).
    rewrite Ec. destruct r as [[b m]|msg]; reflexivity.
  - cbn [List.app run fold_left step]. rewrite He. unfold callEditImage.
    match goal with
    | |- context [settle _ _ _ (suspend _ ?w2)] =>
        change (length (pending w)) with (length (pending w2));
        unfold editOutcome; rewrite (settle_editImage fr r now' w2)
    end.
    unfold editImageResumed, editFinally.
    change (contextImage (rendered fr)) with (contextImage (app w)).
    rewrite Ec. destruct r as [[b m]|msg]; reflexivity.
Qed.

(** X5. A submission issues one [editImage] call, whose parts are, in
    this order: the version under the cursor (its base64 text as
    [dataUrlToBase64] extracts it, and its mime type), then the context
    image if one is attached (the contents read at submission, the mime
    type recorded when it was attached), then the prompt as typed. *)
Theorem submission_sends_current_version
    (w : World) (now now' : Z) (d : jsstring)
    (r : jsstring * jsstring + jsstring) :
  canSubmit (app w) ->
  exists cur req,
    current (app w) = Some cur
    /\ calls (run w (submission w now d (editOutcome r) now'))
       = calls w ++ [req]
    /\ GeminiService.parts (baseImage req) (requestPrompt req) (contextImg req)
       = InlineDataPart (dataUrlToBase64 (ImageState.imageUrl cur))
                        (ImageState.mimeType cur)
         :: match contextImage (app w) with
            | Some ci =>
                [InlineDataPart (dataUrlToBase64 d) (ContextImage.mimeType ci)]
            | None => []
            end
         ++ [TextPart (prompt (app w))].
Proof.
  intros H. destruct (run_submission_calls w now now' d r H) as (cur & Hc & E).
  exists cur. eexists. split; [exact Hc|]. split; [exact E|].
  unfold GeminiService.parts. cbn [baseImage requestPrompt contextImg fst snd].
  destruct (contextImage (app w)); reflexivity.
Qed.

Lemma submission_sends_current_version_witness :
  let w := step (step (run prompted
                         (submission prompted 2000 []
                            (EditResolved (str "WFla") (str "image/png")) 3000))
                      Undo)
                (PromptChange (str "add a title")) in
  canSubmit (app w)
  /\ exists req,
       calls (run w (submission w 4000 [] (EditRejected (str "no")) 5000))
       = calls w ++ [req]
       /\ GeminiService.parts (baseImage req) (requestPrompt req) (contextImg req)
          = [InlineDataPart (Some (str "QUJD")) (str "image/png");
             TextPart (str "add a title")].
Proof.
  intros w.
  assert (H : canSubmit (app w)).
  { unfold canSubmit, cursorInRange. vm_compute. intuition congruence. }
  destruct (submission_sends_current_version w 4000 5000 [] (inr (str "no")) H)
    as (cur & req & Hc & Hcalls & Hparts).
  split; [exact H|]. exists req. split; [exact Hcalls|].
  rewrite Hparts.
  assert (Ecur : cur = ImageState.mk thumbDataUrl (str "image/png")).
  { assert (E : current (app w)
                = Some (ImageState.mk thumbDataUrl (str "image/png")))
      by (vm_compute; reflexivity).
    rewrite Hc in E. injection E as ->. reflexivity. }
  rewrite Ecur. reflexivity.
Defined.

(** ** Submissions with undo and redo clicks while the call is out *)

Lemma settle_editRejected_shifted (w : World) (i : nat) (fr : EditFrame)
    (message : jsstring) (now j : Z) :
  nth_error (pending w) i = Some (AwaitEditImage fr) ->
  settle i (EditRejected message) now (withApp (setHistoryIndex j) w)
  = withApp (setHistoryIndex j) (settle i (EditRejected message) now w).
Proof.
  intros H. unfold settle. cbn [withApp pending]. rewrite H.
  unfold editImageResumed, editFinally, editCatch.
  destruct (contextImage (rendered fr)); reflexivity.
Qed.


(** Both runs end by settling the same suspended [editImage] call; with
    clicks in between, the world in which it settles differs in the
    cursor alone. *)
Lemma run_submissionAmid_shape (w : World) (now now' : Z)
    (mid1 mid2 : list Event) (d : jsstring) (o : Settled) :
  canSubmit (app w) ->
  Forall (fun e => undoOrRedo e = true) mid1 ->
  Forall (fun e => undoOrRedo e = true) mid2 ->
  exists j w3 fr,
    nth_error (pending w3) (length (pending w)) = Some (AwaitEditImage fr)
    /\ run w (submissionAmid w now mid1 d mid2 o now')
       = settle (length (pending w)) o now' (withApp (setHistoryIndex j) w3)
    /\ run w (submission w now d o now')
       = settle (length (pending w)) o now' w3.
Proof.
  intros H H1 H2.
  destruct (handleEdit_accepts now w H) as (cur & Hc & He). cbv zeta in He.
  set (fr := mkFrame (app w) cur (userEntry now (app w))) in *.
  set (w1 := withApp _ w) in *.
  unfold submissionAmid, submission.
  destruct (contextImage (app w)) as [ci|] eqn:Ec.
  - set (w3 := callEditImage fr
                 (Some (dataUrlToBase64 d, ContextImage.mimeType ci)) w1).
    assert (Hw3 : settle (length (pending w)) (FileLoaded d) now
                         (suspend (AwaitContextRead fr) w1) = w3).
    { change (length (pending w)) with (length (pending w1)).
      rewrite (settle_contextRead fr (Some d) now w1).
      unfold contextReadResumed.
      change (contextImage (rendered fr)) with (contextImage (app w)).
      rewrite Ec. reflexivity. }
    assert (Hn : nth_error (pending (suspend (AwaitContextRead fr) w1))
                           (length (pending w))
                 = Some (AwaitContextRead fr)) by apply nth_error_snoc.
    destruct (run_undo_redo mid1 (suspend (AwaitContextRead fr) w1) H1) as [j Hj].
    destruct (run_undo_redo mid2 (withApp (setHistoryIndex j) w3) H2) as [j' Hj'].
    exists j', w3, fr. split; [unfold w3, callEditImage; apply nth_error_snoc|].
    split.
    + rewrite run_cons. cbn [step]. rewrite He, run_app, Hj.
      change ((Settle (length (pending w)) (FileLoaded d) now :: mid2)
              ++ [Settle (length (pending w)) o now'])
        with (Settle (length (pending w)) (FileLoaded d) now
              :: (mid2 ++ [Settle (length (pending w)) o now'])).
      rewrite run_cons. cbn [step].
      rewrite (settle_contextRead_shifted _ _ fr d now j Hn), Hw3.
      rewrite run_app, Hj'. reflexivity.
    + cbn [List.app run fold_left step]. rewrite He, Hw3. reflexivity.
  - set (w3 := callEditImage fr None w1).
    destruct (run_undo_redo mid1 w3 H1) as [j Hj].
    exists j, w3, fr. split; [unfold w3, callEditImage; apply nth_error_snoc|].
    split.
    + rewrite run_cons. cbn [step]. rewrite He.
      change (mid1 ++ [] ++ [Settle (length (pending w)) o now'])
        with (mid1 ++ [Settle (length (pending w)) o now']).
      fold w3. rewrite run_app, Hj. reflexivity.
    + cbn [List.app run fold_left step]. rewrite He. reflexivity.
Qed.


(** With clicks while the call is out, a rejected submission ends in
    the world it ends in without them, but for the cursor. *)
Lemma clicks_before_rejection (w : World) (now now' : Z)
    (mid1 mid2 : list Event) (d message : jsstring) :
  canSubmit (app w) ->
  Forall (fun e => undoOrRedo e = true) mid1 ->
  Forall (fun e => undoOrRedo e = true) mid2 ->
  exists j,
    run w (submissionAmid w now mid1 d mid2 (EditRejected message) now')
    = withApp (setHistoryIndex j)
        (run w (submission w now d (EditRejected message) now')).
Proof.
  intros H H1 H2.
  destruct (run_submissionAmid_shape w now now' mid1 mid2 d (EditRejected message)
              H H1 H2) as (j & w3 & fr & Hn & Ea & Ep).
  exists j. rewrite Ea, Ep. apply (settle_editRejected_shifted _ _ fr). exact Hn.
Qed.





(** C2, amended.  A submission whose [editImage] call is rejected, with
    at most undo and redo clicks handled while the call is out, leaves
    the versions as they were before the submission; the clicks move
    the cursor and change nothing else, so without clicks the cursor is
    as before too.  The transcript is the one before the submission
    without the entries that carry the id of the submission's user
    entry: the one before the submission when no earlier entry carries
    that id.  The error text is the rejection's message. *)
Theorem failed_submission_removes_entries_by_id
    (w : World) (now now' : Z) (mid1 mid2 : list Event) (d message : jsstring) :
  canSubmit (app w) ->
  Forall (fun e => undoOrRedo e = true) mid1 ->
  Forall (fun e => undoOrRedo e = true) mid2 ->
  let w' := run w (submissionAmid w now mid1 d mid2 (EditRejected message) now') in
  let plain := run w (submission w now d (EditRejected message) now') in
  let u := userEntry now (app w) in
  historyStack (app w') = historyStack (app w)
  /\ (exists j, w' = withApp (setHistoryIndex j) plain)
  /\ historyIndex (app plain) = historyIndex (app w)
  /\ chatHistory (app w')
     = filter (fun msg => negb (jsstring_eqb (ChatMessage.id msg) (ChatMessage.id u)))
              (chatHistory (app w))
  /\ (~ In (ChatMessage.id u) (map ChatMessage.id (chatHistory (app w))) ->
      chatHistory (app w') = chatHistory (app w))
  /\ error (app w') = Some message.
Proof.
  intros H H1 H2 w' plain u.
  destruct (clicks_before_rejection w now now' mid1 mid2 d message H H1 H2)
    as [j Hj].
  fold w' plain in Hj.
  destruct (run_submission w now now' d (inr message) H) as (cur & req & _ & Hr).
  change (editOutcome (inr message)) with (EditRejected message) in Hr.
  fold plain in Hr.
  assert (Hp : historyStack (app plain) = historyStack (app w)
               /\ historyIndex (app plain) = historyIndex (app w)
               /\ chatHistory (app plain)
                  = filter (fun msg => negb (jsstring_eqb (ChatMessage.id msg)
                                                          (ChatMessage.id u)))
                           (chatHistory (app w) ++ [u])
               /\ error (app plain) = Some message).
  { rewrite Hr. unfold editImageResumed, editFinally, editCatch.
    cbn [rendered userMessage]. destruct (contextImage (app w));
      repeat split; reflexivity. }
  destruct Hp as (Ps & Pi & Pc & Pe).
  assert (Hc : chatHistory (app w')
               = filter (fun msg => negb (jsstring_eqb (ChatMessage.id msg)
                                                       (ChatMessage.id u)))
                        (chatHistory (app w))).
  { rewrite Hj. cbn [app withApp setHistoryIndex chatHistory]. rewrite Pc.
    rewrite filter_app. simpl. rewrite jsstring_eqb_refl. simpl.
    apply app_nil_r. }
  split; [rewrite Hj; exact Ps|]. split; [exists j; exact Hj|].
  split; [exact Pi|]. split; [exact Hc|].
  split; [|rewrite Hj; exact Pe].
  intros Hfresh. rewrite Hc. apply filter_all. intros x Hx.
  destruct (jsstring_eqb (ChatMessage.id x) (ChatMessage.id u)) eqn:E;
    [|reflexivity].
  apply jsstring_eqb_eq in E. exfalso. apply Hfresh. rewrite <- E.
  apply in_map. exact Hx.
Qed.

Lemma failed_submission_removes_entries_by_id_witness :
  let w := run initialWorld twoVersionsPrompted in
  let reject := EditRejected (str "Failed to edit image: quota") in
  canSubmit (app w)
  /\ Forall (fun e => undoOrRedo e = true) [Undo]
  /\ map ChatMessage.id (chatHistory (app w))
     = [str "bot-1000"; str "user-2000"; str "bot-3000"]
  /\ chatHistory (app (run w (submissionAmid w 4000 [Undo] [] [] reject 5000)))
     = chatHistory (app w)
  /\ historyStack (app (run w (submissionAmid w 4000 [Undo] [] [] reject 5000)))
     = historyStack (app w)
  /\ historyIndex (app (run w (submission w 4000 [] reject 5000)))
     = historyIndex (app w).
Proof.
  intros w reject.
  assert (H : canSubmit (app w)).
  { unfold canSubmit, cursorInRange. vm_compute. intuition congruence. }
  assert (H1 : Forall (fun e => undoOrRedo e = true) [Undo])
    by (repeat constructor).
  destruct (failed_submission_removes_entries_by_id w 4000 5000 [Undo] [] []
              (str "Failed to edit image: quota") H H1 (Forall_nil _))
    as (Hs & _ & Hi & _ & Hfresh & _).
  split; [exact H|]. split; [exact H1|]. split; [vm_compute; reflexivity|].
  split; [|split; [exact Hs|exact Hi]].
  apply Hfresh. vm_compute. intuition congruence.
Defined.

(** Two runs in which the state after a rejected call is not the state
    before the submission.  When the submission reads the clock value
    an earlier submission read, the rollback takes the earlier user
    entry out as well.  When undo is clicked while the call is out, the
    cursor afterwards is where the click left it. *)
Lemma rollback_differs_from_state_before :
  let before := run initialWorld twoVersionsPrompted in
  let reject := Settle 0 (EditRejected (str "Failed to edit image: quota")) 5000 in
  (deliver initialWorld (repeatedReading ++ [reject])
   = Some (run initialWorld (repeatedReading ++ [reject]))
   /\ map ChatMessage.id (chatHistory (app before))
      = [str "bot-1000"; str "user-2000"; str "bot-3000"]
   /\ map ChatMessage.id
        (chatHistory (app (run initialWorld (repeatedReading ++ [reject]))))
      = [str "bot-1000"; str "bot-3000"]
   /\ chatHistory (app (run initialWorld (repeatedReading ++ [reject])))
      <> chatHistory (app before))
  /\ (deliver initialWorld (undoThenReject ++ [reject])
      = Some (run initialWorld (undoThenReject ++ [reject]))
      /\ historyIndex (app before) = 1
      /\ historyIndex (app (run initialWorld (undoThenReject ++ [reject]))) = 0).
Proof.
  cbv zeta. split.
  - split; [vm_compute; reflexivity|]. split; [vm_compute; reflexivity|].
    split; [vm_compute; reflexivity|]. vm_compute. discriminate.
  - split; [vm_compute; reflexivity|]. split; vm_compute; reflexivity.
Qed.

